(** * SelfPerformanceEngine: a shallow embedding and its verified properties

    Source: [backend/src/ai/SelfPerformanceEngine.ts].

    The engine is an in-memory metrics aggregator.  Each method of the class
    is embedded as a function on an explicit engine state.  What a method
    reads from its environment ([Date.now()], [os.cpus()], [os.totalmem()],
    [os.freemem()]) is passed to it as an argument; the Node timer table
    that [setInterval] and [clearInterval] act on is an explicit [runtime].

    Numbers.  A JavaScript [number] that reaches the engine from outside
    (a duration, a host reading) or that is the result of a division is
    embedded as [num]: an exact rational, one of the two infinities, or
    NaN.  The sign of zero is not modelled: every divisor in the source is a
    length, a counter, or [Math.round] of a non-negative quantity, so it is
    never the negative zero.  Counters the engine only increments from 0
    are [nat], timestamps and the clamped active-request counter are [Z].

    Binary64.  A snapshot stores its figures as the rationals they denote
    (a CPU usage as a number of tenths, memory as whole megabytes); the
    program holds the nearest binary64 number.  The alerting step adds and
    divides these figures, and a tenth is not a binary64 number, so there
    the arithmetic is done as the program does it: on the nearest binary64
    numbers, with the operations of IEEE 754 as the Standard Library
    specifies them ([SpecFloat]).  Counts of errors and of calls are
    integers, on which the comparisons of the source come out the same in
    exact arithmetic.  The sampler computes its tenths in exact arithmetic;
    binary64 can land on the neighbouring tenth.

    Provider names.  [modelMetrics] is a plain object, so reading it at a
    name it inherits from [Object.prototype] gives the inherited value, which
    is truthy: [trackModelCall] then creates no entry and its writes land on
    that value, outside the engine.  The map of the embedding holds the own
    keys.  A call under the name [__proto__] writes to [Object.prototype]
    itself; what that does to later calls under the names it creates there
    is outside the embedding, and the properties about stored entries are
    stated for sequences without calls under inherited names.

    Two further sources follow the engine, each under a heading of its own:
    the global error handler of the backend
    ([backend/src/middleware/errorHandler.ts]) and the pure state updates of
    the music studio ([frontend/src/components/MusicStudio.tsx]). *)

From Stdlib Require Import ZArith QArith Qround Lia Lqa.
From Stdlib Require SpecFloat.
From stdpp Require Import gmap strings list fin_maps.

Local Open Scope Z_scope.

(** ** JavaScript numbers *)

Inductive num : Type :=
  | Fin (q : Q)
  | PosInf
  | NegInf
  | NaN.

Definition Qltb (x y : Q) : bool := negb (Qle_bool y x).

Definition nneg (x : num) : num :=
  match x with
  | Fin a => Fin (- a)
  | PosInf => NegInf
  | NegInf => PosInf
  | NaN => NaN
  end.

Definition nadd (x y : num) : num :=
  match x, y with
  | NaN, _ | _, NaN => NaN
  | Fin a, Fin b => Fin (a + b)
  | PosInf, NegInf | NegInf, PosInf => NaN
  | PosInf, _ | _, PosInf => PosInf
  | NegInf, _ | _, NegInf => NegInf
  end.

Definition nsub (x y : num) : num := nadd x (nneg y).

(** An infinity carrying the sign of [q]; NaN when [q] is zero. *)
Definition inf_signed (pos : bool) (q : Q) : num :=
  if Qltb 0 q then (if pos then PosInf else NegInf)
  else if Qltb q 0 then (if pos then NegInf else PosInf)
  else NaN.

Definition nmul (x y : num) : num :=
  match x, y with
  | NaN, _ | _, NaN => NaN
  | Fin a, Fin b => Fin (a * b)
  | PosInf, Fin b | Fin b, PosInf => inf_signed true b
  | NegInf, Fin b | Fin b, NegInf => inf_signed false b
  | PosInf, PosInf | NegInf, NegInf => PosInf
  | PosInf, NegInf | NegInf, PosInf => NegInf
  end.

(** Division; a zero divisor is the positive zero. *)
Definition ndiv (x y : num) : num :=
  match x, y with
  | NaN, _ | _, NaN => NaN
  | Fin a, Fin b =>
      if Qeq_bool b 0 then inf_signed true a else Fin (a / b)
  | Fin _, (PosInf | NegInf) => Fin 0
  | PosInf, Fin b => if Qltb b 0 then NegInf else PosInf
  | NegInf, Fin b => if Qltb b 0 then PosInf else NegInf
  | (PosInf | NegInf), (PosInf | NegInf) => NaN
  end.

(** [x > y]; every comparison with NaN is false. *)
Definition ngt (x y : num) : bool :=
  match x, y with
  | NaN, _ | _, NaN => false
  | Fin a, Fin b => Qltb b a
  | PosInf, (Fin _ | NegInf) => true
  | Fin _, NegInf => true
  | _, _ => false
  end.

(** [Math.round]: the nearest integer, halves towards positive infinity. *)
Definition nround (x : num) : num :=
  match x with
  | Fin a => Fin (inject_Z (Qfloor (a + (1 # 2))))
  | other => other
  end.

Definition ofZ (z : Z) : num := Fin (inject_Z z).
Definition ofN (n : N) : num := ofZ (Z.of_N n).
Definition ofnat (n : nat) : num := ofZ (Z.of_nat n).

Definition is_fin (x : num) : bool :=
  match x with Fin _ => true | _ => false end.

(** [xs.reduce((a, b) => a + b, 0)] *)
Definition nsum (xs : list num) : num := fold_left nadd xs (Fin 0).

(** ** Binary64 numbers *)

(** IEEE 754 binary64: 53 bits of precision, exponents below 1024. *)
Abbreviation binary64 := SpecFloat.spec_float.
Definition prec64 : Z := 53.
Definition emax64 : Z := 1024.

(** The binary64 number nearest to an integer. *)
Definition ofZ64 (z : Z) : binary64 :=
  SpecFloat.binary_normalize prec64 emax64 z 0 false.

Definition add64 : binary64 -> binary64 -> binary64 := SpecFloat.SFadd prec64 emax64.
Definition mul64 : binary64 -> binary64 -> binary64 := SpecFloat.SFmul prec64 emax64.
Definition div64 : binary64 -> binary64 -> binary64 := SpecFloat.SFdiv prec64 emax64.

(** [x > y]; false when either is NaN. *)
Definition gt64 (x y : binary64) : bool := SpecFloat.SFltb y x.

(** The binary64 number the program holds where the embedding holds [x]:
    the correctly rounded quotient of numerator and denominator, which is
    the nearest binary64 number when both are below 2^53, as they are for
    tenths and whole megabytes. *)
Definition toBinary64 (x : num) : binary64 :=
  match x with
  | Fin q => div64 (ofZ64 (Qnum q)) (ofZ64 (Z.pos (Qden q)))
  | PosInf => SpecFloat.S754_infinity false
  | NegInf => SpecFloat.S754_infinity true
  | NaN => SpecFloat.S754_nan
  end.

(** [xs.reduce((a, b) => a + b, 0)] in binary64 *)
Definition sum64 (xs : list binary64) : binary64 := fold_left add64 xs (ofZ64 0).

(** ** Arrays *)

(** [xs.slice(-k)]: the elements from index [max (length - k) 0] on. *)
Definition slice_from_end {A} (k : nat) (xs : list A) : list A :=
  drop (length xs - k) xs.

(** [xs.shift()] *)
Definition shift {A} (xs : list A) : list A := tail xs.

(** [xs.sort(cmp)].  The sort of the language is stable and, for a
    comparator that is a consistent ordering, every stable sort gives the
    same array; it is embedded as the stable insertion sort.  [a] goes
    before [b] unless [cmp a b] is positive. *)
Fixpoint sort_insert {A} (cmp : A -> A -> Q) (x : A) (sorted : list A) : list A :=
  match sorted with
  | [] => [x]
  | y :: rest =>
      if Qle_bool (cmp x y) 0 then x :: y :: rest
      else y :: sort_insert cmp x rest
  end.

Fixpoint sort {A} (cmp : A -> A -> Q) (xs : list A) : list A :=
  match xs with
  | [] => []
  | x :: rest => sort_insert cmp x (sort cmp rest)
  end.

(** [(a, b) => r(b) - r(a)]: the comparator that sorts descending in [r]. *)
Definition descending {A} (r : A -> Q) (a b : A) : Q := (r b - r a)%Q.

(** ** Data model *)

Module Snapshot.
Record t : Type := mk {
  timestamp : Z;
  cpuUsage : num;
  memoryUsedMB : num;
  memoryTotalMB : num;
  activeRequests : Z;
  avgResponseTimeMs : num;
  errorRate : nat;
  modelSuccessRates : gmap string Q;
}.
End Snapshot.
Abbreviation PerformanceSnapshot := Snapshot.t.

Record ModelMetrics : Type := mkModelMetrics {
  totalCalls : nat;
  successCalls : nat;
  totalTimeMs : num;
  lastUsed : Z;
}.

Record SelfPerformanceEngine : Type := mkEngine {
  snapshots : list PerformanceSnapshot;
  modelMetrics : gmap string ModelMetrics;
  activeRequests : Z;
  responseTimes : list num;
  errors : list Z;
  monitorInterval : option nat;
}.

Definition MAX_SNAPSHOTS : nat := 1000.
Definition MAX_RESPONSE_TIMES : nat := 100.
Definition ERROR_WINDOW_MS : Z := 60000.

(** [new SelfPerformanceEngine()] *)
Definition initial : SelfPerformanceEngine :=
  {| snapshots := []; modelMetrics := ∅; activeRequests := 0;
     responseTimes := []; errors := []; monitorInterval := None |}.

(** ** Host readings *)

(** [cpu.times] of one entry of [os.cpus()]: milliseconds spent per mode. *)
Record CpuTimes : Type := mkCpuTimes {
  user : N; nice : N; sys : N; idle : N; irq : N;
}.

Record Host : Type := mkHost {
  cpus : list CpuTimes;
  totalmem : N;
  freemem : N;
}.

(** ** Request tracking *)

Definition trackRequestStart (e : SelfPerformanceEngine) : SelfPerformanceEngine :=
  {| snapshots := snapshots e; modelMetrics := modelMetrics e;
     activeRequests := activeRequests e + 1;
     responseTimes := responseTimes e; errors := errors e;
     monitorInterval := monitorInterval e |}.

(** [nowPush] is the clock read at the push of a failure, [nowPrune] the
    later read that fixes the cutoff. *)
Definition trackRequestEnd (durationMs : num) (success : bool)
    (nowPush nowPrune : Z) (e : SelfPerformanceEngine) : SelfPerformanceEngine :=
  let pushed := responseTimes e ++ [durationMs] in
  let errs := if success then errors e else errors e ++ [nowPush] in
  let cutoff := nowPrune - ERROR_WINDOW_MS in
  {| snapshots := snapshots e; modelMetrics := modelMetrics e;
     activeRequests := Z.max 0 (activeRequests e - 1);
     responseTimes :=
       if (MAX_RESPONSE_TIMES <? length pushed)%nat then shift pushed else pushed;
     errors := filter (λ t, cutoff < t) errs;
     monitorInterval := monitorInterval e |}.

Definition freshMetrics : ModelMetrics :=
  {| totalCalls := 0; successCalls := 0; totalTimeMs := Fin 0; lastUsed := 0 |}.

Definition recordCall (success : bool) (durationMs : num) (now : Z)
    (m : ModelMetrics) : ModelMetrics :=
  {| totalCalls := S (totalCalls m);
     successCalls := if success then S (successCalls m) else successCalls m;
     totalTimeMs := nadd (totalTimeMs m) durationMs;
     lastUsed := now |}.

(** The names a plain object inherits from [Object.prototype]: each is
    bound to a function, [__proto__] to the prototype itself. *)
Definition objectPrototypeNames : list string :=
  [ "constructor"; "__proto__"; "hasOwnProperty"; "isPrototypeOf";
    "propertyIsEnumerable"; "toString"; "toLocaleString"; "valueOf";
    "__defineGetter__"; "__defineSetter__"; "__lookupGetter__";
    "__lookupSetter__" ]%string.

Definition inherited (name : string) : bool :=
  bool_decide (name ∈ objectPrototypeNames).

(** The body of [trackModelCall] where [this.modelMetrics[model]] is an
    own entry, created first when it is missing. *)
Definition recordOwn (model : string) (success : bool) (durationMs : num)
    (now : Z) (e : SelfPerformanceEngine) : SelfPerformanceEngine :=
  let m := default freshMetrics (modelMetrics e !! model) in
  {| snapshots := snapshots e;
     modelMetrics := <[model := recordCall success durationMs now m]> (modelMetrics e);
     activeRequests := activeRequests e;
     responseTimes := responseTimes e; errors := errors e;
     monitorInterval := monitorInterval e |}.

(** Under an inherited name without an own entry [this.modelMetrics[model]]
    is the inherited value: no entry is created and the engine stays as it
    is. *)
Definition trackModelCall (model : string) (success : bool) (durationMs : num)
    (now : Z) (e : SelfPerformanceEngine) : SelfPerformanceEngine :=
  if inherited model && bool_decide (modelMetrics e !! model = None) then e
  else recordOwn model success durationMs now e.

(** ** Routing *)

Inductive taskType : Type := Music | Video | Image | Voice.

Definition modelsByTask (t : taskType) : list string :=
  match t with
  | Music => ["suno-v3.5"; "eleven-music-v2"; "musicgen-large"]
  | Video => ["kling-3.0"; "veo-3"; "runway-gen3"]
  | Image => ["flux-1"; "sdxl"; "dalle-3"]
  | Voice => ["eleven-v3"; "eleven-v2"; "whisper"]
  end%string.

Definition ratio (successes calls : nat) : Q :=
  (inject_Z (Z.of_nat successes) / inject_Z (Z.of_nat calls))%Q.

(** [successCalls / (totalCalls || 1)] *)
Definition sortRate (m : ModelMetrics) : Q :=
  ratio (successCalls m) (if (totalCalls m =? 0)%nat then 1%nat else totalCalls m).

(** The rate the comparator reads for a name; the comparator only runs
    on names that passed the filter, so the entry exists. *)
Definition rateOf (e : SelfPerformanceEngine) (model : string) : Q :=
  match modelMetrics e !! model with
  | Some m => sortRate m
  | None => 0%Q
  end.

Definition byRateDesc (e : SelfPerformanceEngine) (a b : string) : Q :=
  (rateOf e b - rateOf e a)%Q.

Definition hasMetrics (e : SelfPerformanceEngine) (model : string) : bool :=
  bool_decide (is_Some (modelMetrics e !! model)).

(** The result is [None] where the source yields [undefined]. *)
Definition getBestModel (t : taskType) (e : SelfPerformanceEngine) : option string :=
  let candidates := modelsByTask t in
  match head (sort (byRateDesc e) (List.filter (hasMetrics e) candidates)) with
  | Some best => if String.eqb best "" then head candidates else Some best
  | None => head candidates
  end.

(** ** Snapshot sampler *)

Definition cpuTotal (c : CpuTimes) : N :=
  (user c + nice c + sys c + idle c + irq c)%N.

(** [((total - cpu.times.idle) / total) * 100] *)
Definition cpuBusyPct (c : CpuTimes) : num :=
  nmul (ndiv (nsub (ofN (cpuTotal c)) (ofN (idle c))) (ofN (cpuTotal c))) (ofZ 100).

Definition cpuUsageOf (cs : list CpuTimes) : num :=
  ndiv (fold_left (λ acc cpu, nadd acc (cpuBusyPct cpu)) cs (ofZ 0))
       (ofnat (length cs)).

Definition MB : num := ofZ (1024 * 1024).

Definition avgResponseTimeOf (rts : list num) : num :=
  if (0 <? length rts)%nat then ndiv (nsum rts) (ofnat (length rts)) else ofZ 0.

(** [totalCalls > 0 ? successCalls / totalCalls : 0] *)
Definition successRate (m : ModelMetrics) : Q :=
  if (0 <? totalCalls m)%nat then ratio (successCalls m) (totalCalls m) else 0%Q.

Definition makeSnapshot (h : Host) (now : Z) (e : SelfPerformanceEngine)
    : PerformanceSnapshot :=
  let memTotal := ndiv (ofN (totalmem h)) MB in
  let memFree := ndiv (ofN (freemem h)) MB in
  let memUsed := nsub memTotal memFree in
  {| Snapshot.timestamp := now;
     Snapshot.cpuUsage := ndiv (nround (nmul (cpuUsageOf (cpus h)) (ofZ 10))) (ofZ 10);
     Snapshot.memoryUsedMB := nround memUsed;
     Snapshot.memoryTotalMB := nround memTotal;
     Snapshot.activeRequests := activeRequests e;
     Snapshot.avgResponseTimeMs := nround (avgResponseTimeOf (responseTimes e));
     Snapshot.errorRate := length (errors e);
     Snapshot.modelSuccessRates := successRate <$> modelMetrics e |}.

(** Returns the snapshot and the engine with the snapshot in its history. *)
Definition captureSnapshot (h : Host) (now : Z) (e : SelfPerformanceEngine)
    : PerformanceSnapshot * SelfPerformanceEngine :=
  let snapshot := makeSnapshot h now e in
  let pushed := snapshots e ++ [snapshot] in
  (snapshot,
   {| snapshots := if (MAX_SNAPSHOTS <? length pushed)%nat then shift pushed else pushed;
      modelMetrics := modelMetrics e; activeRequests := activeRequests e;
      responseTimes := responseTimes e; errors := errors e;
      monitorInterval := monitorInterval e |}).

Definition getCurrentMetrics (h : Host) (now : Z) (e : SelfPerformanceEngine)
    : PerformanceSnapshot * SelfPerformanceEngine :=
  captureSnapshot h now e.

Definition getHistory (e : SelfPerformanceEngine)
    : list PerformanceSnapshot * SelfPerformanceEngine :=
  (slice_from_end 50 (snapshots e), e).

(** ** Alerting *)

(** One constructor per [console.warn] of the source, with what it prints. *)
Inductive warning : Type :=
  | HighCpu (avgCPU : binary64)
  | HighMemory (avgMemPct : binary64)
  | HighErrorRate (avgErrors : num)
  | LowPerformingModels (models : list string).

Definition isLowPerforming (m : ModelMetrics) : bool :=
  (5 <? totalCalls m)%nat && Qltb (ratio (successCalls m) (totalCalls m)) (7 # 10).

(** The names come in the order of the keys of the map, not in the
    insertion order of [Object.entries]. *)
Definition lowPerformingModels (e : SelfPerformanceEngine) : list string :=
  (List.filter (λ entry, isLowPerforming entry.2) (map_to_list (modelMetrics e))).*1.

(** Returns what the call writes with [console.warn], in order.  The CPU
    and memory figures are computed in binary64 from the stored snapshot
    figures; the error counts are integers. *)
Definition analyseAndAdapt (e : SelfPerformanceEngine) : list warning :=
  let recent := slice_from_end 6 (snapshots e) in
  if (length recent <? 3)%nat then []
  else
    let avgCPU :=
      div64 (sum64 ((λ s, toBinary64 (Snapshot.cpuUsage s)) <$> recent))
            (ofZ64 (Z.of_nat (length recent))) in
    let avgErrors :=
      ndiv (nsum ((λ s, ofnat (Snapshot.errorRate s)) <$> recent)) (ofnat (length recent)) in
    let avgMemPct :=
      match last recent with
      | Some latest =>
          mul64 (div64 (toBinary64 (Snapshot.memoryUsedMB latest))
                       (toBinary64 (Snapshot.memoryTotalMB latest)))
                (ofZ64 100)
      | None => SpecFloat.S754_nan
      end in
    (if gt64 avgCPU (ofZ64 85) then [HighCpu avgCPU] else [])
    ++ (if gt64 avgMemPct (ofZ64 85) then [HighMemory avgMemPct] else [])
    ++ (if ngt avgErrors (ofZ 5) then [HighErrorRate avgErrors] else [])
    ++ (let low := lowPerformingModels e in
        if (0 <? length low)%nat then [LowPerformingModels low] else []).

(** ** Monitoring timer *)

(** The timers of the Node event loop: the handles still scheduled and the
    next handle [setInterval] hands out.  Handles are never reused.  A
    handle of Node is a [Timeout] object, so every handle is truthy. *)
Record runtime : Type := mkRuntime {
  timers : gset nat;
  nextTimer : nat;
}.

Definition setInterval (rt : runtime) : nat * runtime :=
  (nextTimer rt, {| timers := {[nextTimer rt]} ∪ timers rt; nextTimer := S (nextTimer rt) |}).

Definition clearInterval (handle : nat) (rt : runtime) : runtime :=
  {| timers := timers rt ∖ {[handle]}; nextTimer := nextTimer rt |}.

Definition setMonitorInterval (v : option nat) (e : SelfPerformanceEngine)
    : SelfPerformanceEngine :=
  {| snapshots := snapshots e; modelMetrics := modelMetrics e;
     activeRequests := activeRequests e;
     responseTimes := responseTimes e; errors := errors e;
     monitorInterval := v |}.

Definition startMonitoring (w : SelfPerformanceEngine * runtime)
    : SelfPerformanceEngine * runtime :=
  let (handle, rt) := setInterval w.2 in
  (setMonitorInterval (Some handle) w.1, rt).

Definition stopMonitoring (w : SelfPerformanceEngine * runtime)
    : SelfPerformanceEngine * runtime :=
  match monitorInterval w.1 with
  | Some handle => (setMonitorInterval None w.1, clearInterval handle w.2)
  | None => w
  end.

(** One expiry of the timer [handle]: the callback of [startMonitoring]
    runs when the timer is still scheduled, and not otherwise. *)
Definition timerFires (handle : nat) (h : Host) (now : Z)
    (w : SelfPerformanceEngine * runtime)
    : list warning * (SelfPerformanceEngine * runtime) :=
  if bool_decide (handle ∈ timers w.2) then
    let e := (captureSnapshot h now w.1).2 in
    (analyseAndAdapt e, (e, w.2))
  else ([], w).

(** ** Sequences of operations *)

Inductive op : Type :=
  | TrackRequestStart
  | TrackRequestEnd (durationMs : num) (success : bool) (nowPush nowPrune : Z)
  | TrackModelCall (model : string) (success : bool) (durationMs : num) (now : Z)
  | CaptureSnapshot (h : Host) (now : Z)
  | GetCurrentMetrics (h : Host) (now : Z)
  | GetHistory.

Definition step (e : SelfPerformanceEngine) (o : op) : SelfPerformanceEngine :=
  match o with
  | TrackRequestStart => trackRequestStart e
  | TrackRequestEnd d ok t1 t2 => trackRequestEnd d ok t1 t2 e
  | TrackModelCall model ok d now => trackModelCall model ok d now e
  | CaptureSnapshot h now => (captureSnapshot h now e).2
  | GetCurrentMetrics h now => (getCurrentMetrics h now e).2
  | GetHistory => (getHistory e).2
  end.

Definition run (ops : list op) (e : SelfPerformanceEngine) : SelfPerformanceEngine :=
  fold_left step ops e.

(** What can happen to an engine and the timers of its process: a call
    of one of its methods, or the expiry of a timer. *)
Inductive event : Type :=
  | Call (o : op)
  | StartMonitoring
  | StopMonitoring
  | TimerExpires (handle : nat) (h : Host) (now : Z).

Definition eventStep (w : SelfPerformanceEngine * runtime) (ev : event)
    : SelfPerformanceEngine * runtime :=
  match ev with
  | Call o => (step w.1 o, w.2)
  | StartMonitoring => startMonitoring w
  | StopMonitoring => stopMonitoring w
  | TimerExpires handle h now => (timerFires handle h now w).2
  end.

(** * The global error handler

    Source: [backend/src/middleware/errorHandler.ts].  [errorHandler] is
    embedded as the function from the error, the value of
    [process.env.NODE_ENV] and the time stamp of the response to the console
    it writes to and the response it sends with [res.status(..).json(..)].
    The record it logs is not part of the embedding.  HTTP status codes are
    integers. *)

Module AppError.
Record t : Type := mk {
  name : string;
  message : string;
  stack : option string;
  statusCode : option Z;
  isOperational : option bool;
  code : option string;
}.
End AppError.

(** The [error] object of the response body; a field that the source
    leaves out or sets to [undefined] is [None]. *)
Module ErrorBody.
Record t : Type := mk {
  message : string;
  code : string;
  statusCode : Z;
  stack : option string;
  retryAfter : option Z;
  retryable : option bool;
  fallbackAvailable : option bool;
}.
End ErrorBody.

Module ErrorResponse.
Record t : Type := mk {
  status : Z;
  success : bool;
  error : ErrorBody.t;
  timestamp : string;
}.
End ErrorResponse.

Inductive console : Type := ConsoleError | ConsoleWarn.

(** [err.statusCode || 500] *)
Definition statusOr500 (err : AppError.t) : Z :=
  match AppError.statusCode err with
  | Some n => if n =? 0 then 500 else n
  | None => 500
  end.

(** [err.code || 'INTERNAL_ERROR'] *)
Definition codeOrInternal (err : AppError.t) : string :=
  match AppError.code err with
  | Some c => if String.eqb c "" then "INTERNAL_ERROR" else c
  | None => "INTERNAL_ERROR"
  end.

(** [err.isOperational !== false] *)
Definition operational (err : AppError.t) : bool :=
  match AppError.isOperational err with
  | Some false => false
  | _ => true
  end.

(** [err.code === c] *)
Definition codeIs (err : AppError.t) (c : string) : bool :=
  match AppError.code err with
  | Some c' => String.eqb c' c
  | None => false
  end.

(** [{ ...error, code }] *)
Definition withCode (c : string) (b : ErrorBody.t) : ErrorBody.t :=
  {| ErrorBody.message := ErrorBody.message b; ErrorBody.code := c;
     ErrorBody.statusCode := ErrorBody.statusCode b; ErrorBody.stack := ErrorBody.stack b;
     ErrorBody.retryAfter := ErrorBody.retryAfter b;
     ErrorBody.retryable := ErrorBody.retryable b;
     ErrorBody.fallbackAvailable := ErrorBody.fallbackAvailable b |}.

Definition withRetryAfter (seconds : Z) (b : ErrorBody.t) : ErrorBody.t :=
  {| ErrorBody.message := ErrorBody.message b; ErrorBody.code := ErrorBody.code b;
     ErrorBody.statusCode := ErrorBody.statusCode b; ErrorBody.stack := ErrorBody.stack b;
     ErrorBody.retryAfter := Some seconds;
     ErrorBody.retryable := ErrorBody.retryable b;
     ErrorBody.fallbackAvailable := ErrorBody.fallbackAvailable b |}.

Definition withFallback (b : ErrorBody.t) : ErrorBody.t :=
  {| ErrorBody.message := ErrorBody.message b; ErrorBody.code := ErrorBody.code b;
     ErrorBody.statusCode := ErrorBody.statusCode b; ErrorBody.stack := ErrorBody.stack b;
     ErrorBody.retryAfter := ErrorBody.retryAfter b;
     ErrorBody.retryable := Some true;
     ErrorBody.fallbackAvailable := Some true |}.

Definition errorHandler (nodeEnv : option string) (now : string) (err : AppError.t)
    : console * ErrorResponse.t :=
  let statusCode := statusOr500 err in
  let isOperational := operational err in
  let log := if 500 <=? statusCode then ConsoleError else ConsoleWarn in
  let body :=
    {| ErrorBody.message :=
         if isOperational then AppError.message err else "Internal server error";
       ErrorBody.code := codeOrInternal err;
       ErrorBody.statusCode := statusCode;
       ErrorBody.stack :=
         if bool_decide (nodeEnv = Some "development"%string) then AppError.stack err
         else None;
       ErrorBody.retryAfter := None; ErrorBody.retryable := None;
       ErrorBody.fallbackAvailable := None |} in
  let respond (status : Z) (b : ErrorBody.t) :=
    (log, {| ErrorResponse.status := status; ErrorResponse.success := false;
             ErrorResponse.error := b; ErrorResponse.timestamp := now |}) in
  if String.eqb (AppError.name err) "ValidationError" then
    respond 400 (withCode "VALIDATION_ERROR" body)
  else if String.eqb (AppError.name err) "UnauthorizedError" || (statusCode =? 401) then
    respond 401 (withCode "UNAUTHORIZED" body)
  else if String.eqb (AppError.name err) "RateLimitError" || (statusCode =? 429) then
    respond 429 (withRetryAfter 60 (withCode "RATE_LIMITED" body))
  else if codeIs err "AI_MODEL_ERROR" || codeIs err "GENERATION_FAILED" then
    respond 503 (withFallback (withCode (default ""%string (AppError.code err)) body))
  else respond statusCode body.

(** [createError(message, statusCode = 400, code?)]; an argument left out
    is [None], and [trace] is the stack the runtime gives the new error. *)
Definition createError (message : string) (statusCode : option Z)
    (code : option string) (trace : option string) : AppError.t :=
  {| AppError.name := "Error"; AppError.message := message; AppError.stack := trace;
     AppError.statusCode := Some (default 400 statusCode);
     AppError.isOperational := Some true; AppError.code := code |}.

(** * The music studio

    Source: [frontend/src/components/MusicStudio.tsx]. *)

(** The updater [toggleInstrument] hands to [setInstruments]:
    [prev.includes(i) ? prev.filter(x => x !== i) : [...prev, i]]. *)
Definition toggleInstrument (instrument : string) (prev : list string) : list string :=
  if bool_decide (instrument ∈ prev)
  then List.filter (λ i, negb (String.eqb i instrument)) prev
  else prev ++ [instrument].

Inductive interactionType : Type :=
  | music_generate | video_generate | image_generate | voice_swap | stem_split.

Module UserInteraction.
Record t : Type := mk {
  type : interactionType;
  prompt : string;
  genre : option string;
  mood : option string;
  model : option string;
  quality : option string;
  duration : option num;
  success : bool;
  generationTimeMs : option num;
  userRating : option num;
  timestamp : num;
}.
End UserInteraction.

Definition MAX_HISTORY : nat := 500.

(** [SelfLearningEngine.recordInteraction], on the [interactions] field:
    push, then keep [slice(-MAX_HISTORY)] when the array is too long.  The
    copy it then writes to [localStorage] and the request it sends to the
    backend do not feed back into the field and are not embedded. *)
Definition recordInteraction (interaction : UserInteraction.t)
    (interactions : list UserInteraction.t) : list UserInteraction.t :=
  let pushed := interactions ++ [interaction] in
  if (MAX_HISTORY <? length pushed)%nat then slice_from_end MAX_HISTORY pushed
  else pushed.

(** * Notions the properties are stated with *)

(** The most recent [n] elements of a history that is kept oldest first,
    in the order of the history. *)
Definition mostRecent {A} (n : nat) (xs : list A) : list A :=
  rev (take n (rev xs)).

(** The durations a sequence of operations hands to [trackRequestEnd],
    in order. *)
Definition durations (ops : list op) : list num :=
  omap (λ o, match o with TrackRequestEnd d _ _ _ => Some d | _ => None end) ops.

(** Recorded calls and recorded successes of a provider; 0 when the
    engine has never seen the name. *)
Definition callsOf (e : SelfPerformanceEngine) (name : string) : nat :=
  from_option totalCalls 0%nat (modelMetrics e !! name).



(** At least 6 recorded calls and a success rate strictly below 0.7. *)
Definition lowPerforming (e : SelfPerformanceEngine) (name : string) : Prop :=
  ∃ m, modelMetrics e !! name = Some m
       ∧ (6 ≤ totalCalls m)%nat
       ∧ (ratio (successCalls m) (totalCalls m) < 7 # 10)%Q.

(** The failures whose time stamp lies in the 60 seconds before [now]. *)
Definition failuresWithinWindow (now : Z) (failures : list Z) : list Z :=
  filter (λ t, now - ERROR_WINDOW_MS < t) failures.

(** What every entry of [modelMetrics] satisfies once it is stored. *)
Definition metricsOk (m : ModelMetrics) : Prop :=
  (1 ≤ totalCalls m)%nat ∧ (successCalls m ≤ totalCalls m)%nat.

Record engineOk (e : SelfPerformanceEngine) : Prop := mkEngineOk {
  ok_metrics : ∀ name m, modelMetrics e !! name = Some m → metricsOk m;
  ok_active : 0 ≤ activeRequests e;
  ok_snapshots : (length (snapshots e) ≤ MAX_SNAPSHOTS)%nat;
  ok_responseTimes : (length (responseTimes e) ≤ MAX_RESPONSE_TIMES)%nat;
}.

(** What keeps a timer running whatever happens: it is scheduled, it is
    older than every handle still to be handed out, and the handle the
    engine holds, if any, is a younger one. *)
Definition orphaned (first : nat) (w : SelfPerformanceEngine * runtime) : Prop :=
  first ∈ timers w.2 ∧ (first < nextTimer w.2)%nat
  ∧ (∀ held, monitorInterval w.1 = Some held → (first < held)%nat).

(** ** Notions of the further properties *)

(** The calls a sequence of operations records for provider [name], in
    order: outcome, duration and clock of each. *)
Definition callsTo (name : string) (ops : list op) : list (bool * num * Z) :=
  omap (λ o, match o with
             | TrackModelCall model ok d now =>
                 if decide (model = name) then Some (ok, d, now) else None
             | _ => None
             end) ops.

Definition succeeded (calls : list (bool * num * Z)) : list (bool * num * Z) :=
  List.filter (λ c, c.1.1) calls.

(** The entry the recorded calls of a provider add up to; none without a
    call. *)
Definition entryOf (calls : list (bool * num * Z)) : option ModelMetrics :=
  match last calls with
  | None => None
  | Some latest =>
      Some {| totalCalls := length calls;
              successCalls := length (succeeded calls);
              totalTimeMs := nsum ((λ c, c.1.2) <$> calls);
              lastUsed := latest.2 |}
  end.

(** An operation that records no call under a name inherited from
    [Object.prototype]. *)
Definition recordsOwnName (o : op) : bool :=
  match o with
  | TrackModelCall model _ _ _ => negb (inherited model)
  | _ => true
  end.

(** How many requests a sequence of operations starts and ends. *)
Definition starts (ops : list op) : nat :=
  length (List.filter (λ o, match o with TrackRequestStart => true | _ => false end) ops).

Definition ends (ops : list op) : nat :=
  length (List.filter (λ o, match o with TrackRequestEnd _ _ _ _ => true | _ => false end) ops).

(** No request ends before it started: no prefix of the sequence ends
    more requests than it starts. *)
Definition endsFollowStarts (ops : list op) : Prop :=
  ∀ k, (ends (take k ops) ≤ starts (take k ops))%nat.

(** The clock readings at which failed requests were recorded, and the
    clock readings that fixed a cutoff, in order. *)
Definition failureTimes (ops : list op) : list Z :=
  omap (λ o, match o with TrackRequestEnd _ false t _ => Some t | _ => None end) ops.

Definition pruneTimes (ops : list op) : list Z :=
  omap (λ o, match o with TrackRequestEnd _ _ _ t => Some t | _ => None end) ops.

(** The clock readings of the snapshots a sequence of operations takes. *)
Definition captureTimes (ops : list op) : list Z :=
  omap (λ o, match o with
             | CaptureSnapshot _ now | GetCurrentMetrics _ now => Some now
             | _ => None
             end) ops.

(** An event that is neither [startMonitoring] nor [stopMonitoring]. *)
Definition keepsTimers (ev : event) : bool :=
  match ev with
  | Call _ | TimerExpires _ _ _ => true
  | StartMonitoring | StopMonitoring => false
  end.

(** An operation that records no call for a candidate of category [t]. *)
Definition sparesCategory (t : taskType) (o : op) : Prop :=
  match o with
  | TrackModelCall model _ _ _ => model ∉ modelsByTask t
  | _ => True
  end.

(** [b], at position [i] of [l], passes the filter [P], has the greatest
    [r] among the elements that pass it, and every such element before
    position [i] has a strictly smaller [r]. *)
Definition leads {A} (r : A → Q) (P : A → bool) (l : list A) (b : A) (i : nat) : Prop :=
  l !! i = Some b ∧ P b = true
  ∧ (∀ j y, l !! j = Some y → P y = true → (r y <= r b)%Q)
  ∧ (∀ j y, l !! j = Some y → P y = true → (j < i)%nat → (r y < r b)%Q).

(** Ten successful calls to "x", two failed calls to "y". *)
Definition tenAndTwo : list op :=
  replicate 10 (TrackModelCall "x" true (ofZ 200) 0)
  ++ replicate 2 (TrackModelCall "y" false (ofZ 500) 0).

(** ** Sample inputs *)

(** One core that was busy three quarters of the time, 8 GiB of memory
    of which 2 GiB are free. *)
Definition sampleHost : Host :=
  {| cpus := [ {| user := 50; nice := 0; sys := 25; idle := 25; irq := 0 |} ];
     totalmem := 8589934592; freemem := 2147483648 |}.

(** A host whose CPU list is empty, as [os.cpus()] gives where the CPU
    information cannot be read. *)
Definition noCpuHost (total free : N) : Host :=
  {| cpus := []; totalmem := total; freemem := free |}.

(** The engine after two snapshots, taken at times 0 and 10000. *)
Definition twoSnapshots : SelfPerformanceEngine :=
  run [CaptureSnapshot sampleHost 0; CaptureSnapshot sampleHost 10000] initial.

(** The engine after one failed request that ended at time 0. *)
Definition oneFailure : SelfPerformanceEngine :=
  trackRequestEnd (ofZ 100) false 0 0 initial.

(** A host with one core that was busy [busy] of 1000 milliseconds. *)
Definition busyHost (busy : N) : Host :=
  {| cpus := [ {| user := busy; nice := 0; sys := 0; idle := 1000 - busy; irq := 0 |} ];
     totalmem := 8589934592; freemem := 2147483648 |}.

(** The engine after three snapshots with the CPU at 80.2, 84.9 and 89.9. *)
Definition nearThreshold : SelfPerformanceEngine :=
  run [CaptureSnapshot (busyHost 802) 0; CaptureSnapshot (busyHost 849) 10000;
       CaptureSnapshot (busyHost 899) 20000] initial.

(** Provider "veo-3" with 4 successes in 5 calls and provider "kling-3.0",
    which is first in the static list for video, with 2 in 5. *)
Definition fourOfFive_twoOfFive : list op :=
  [ TrackModelCall "veo-3" true (ofZ 200) 1; TrackModelCall "kling-3.0" true (ofZ 200) 2;
    TrackModelCall "veo-3" true (ofZ 200) 3; TrackModelCall "kling-3.0" false (ofZ 500) 4;
    TrackModelCall "veo-3" false (ofZ 500) 5; TrackModelCall "kling-3.0" true (ofZ 200) 6;
    TrackModelCall "veo-3" true (ofZ 200) 7; TrackModelCall "kling-3.0" false (ofZ 500) 8;
    TrackModelCall "veo-3" true (ofZ 200) 9; TrackModelCall "kling-3.0" false (ofZ 500) 10 ].

(** 101 requests with the durations 0, 1, ..., 100. *)
Definition hundredAndOneRequests : list op :=
  (λ d, TrackRequestEnd (ofZ d) true 0 0) <$> seqZ 0 101.

(** Six failed calls to provider "y", then three snapshots. *)
Definition sixFailedCalls : SelfPerformanceEngine :=
  run (replicate 6 (TrackModelCall "y" false (ofZ 500) 0)
       ++ [CaptureSnapshot sampleHost 0; CaptureSnapshot sampleHost 10000;
           CaptureSnapshot sampleHost 20000]) initial.

(** Six failed requests at time 0, then three snapshots. *)
Definition sixFailedRequests : SelfPerformanceEngine :=
  run (replicate 6 (TrackRequestEnd (ofZ 100) false 0 0)
       ++ [CaptureSnapshot sampleHost 1; CaptureSnapshot sampleHost 10001;
           CaptureSnapshot sampleHost 20001]) initial.

(** The error names and error codes [errorHandler] answers with a status
    of its own choice. *)
Definition namedKind (err : AppError.t) : bool :=
  String.eqb (AppError.name err) "ValidationError"
  || String.eqb (AppError.name err) "UnauthorizedError"
  || String.eqb (AppError.name err) "RateLimitError".

Definition aiFailure (err : AppError.t) : bool :=
  codeIs err "AI_MODEL_ERROR" || codeIs err "GENERATION_FAILED".

(** A rate-limit error as a rate limiter would raise it. *)
Definition rateLimited : AppError.t :=
  {| AppError.name := "RateLimitError"; AppError.message := "Too many requests";
     AppError.stack := Some "RateLimitError: Too many requests at limiter.js:10"%string;
     AppError.statusCode := None; AppError.isOperational := None;
     AppError.code := None |}.

(** A programming error: not operational, with a message not meant for
    the client. *)
Definition crashed : AppError.t :=
  {| AppError.name := "TypeError"; AppError.message := "db.password is undefined";
     AppError.stack := Some "TypeError: db.password is undefined at db.js:3"%string;
     AppError.statusCode := None; AppError.isOperational := Some false;
     AppError.code := None |}.

(** * Properties *)

(** ** Rates *)

Lemma ratio_bounds (s c : nat) :
  (0 < c)%nat → (s ≤ c)%nat → (0 <= ratio s c)%Q ∧ (ratio s c <= 1)%Q.
Proof.
  intros Hc Hs. unfold ratio.
  assert (Hpos : (0 < inject_Z (Z.of_nat c))%Q).
  { change 0%Q with (inject_Z 0). rewrite <- Zlt_Qlt. lia. }
  split.
  - apply Qle_shift_div_l; [exact Hpos|].
    rewrite Qmult_0_l. change 0%Q with (inject_Z 0). rewrite <- Zle_Qle. lia.
  - apply Qle_shift_div_r; [exact Hpos|].
    rewrite Qmult_1_l. rewrite <- Zle_Qle. lia.
Qed.

Lemma successRate_bounds (m : ModelMetrics) :
  (successCalls m ≤ totalCalls m)%nat →
  (0 <= successRate m)%Q ∧ (successRate m <= 1)%Q.
Proof.
  intros Hle. unfold successRate.
  destruct (0 <? totalCalls m)%nat eqn:Hpos.
  - apply Nat.ltb_lt in Hpos. by apply ratio_bounds.
  - split; [apply Qle_refl | discriminate].
Qed.

(** ** Reachable states *)

Lemma push_bounded_length {A} (cap : nat) (xs : list A) (x : A) :
  (length xs ≤ cap)%nat →
  (length (if (cap <? length (xs ++ [x]))%nat then shift (xs ++ [x]) else xs ++ [x]) ≤ cap)%nat.
Proof.
  intros Hle. destruct (cap <? length (xs ++ [x]))%nat eqn:Hover.
  - unfold shift. destruct xs as [|y ys]; simpl in *; [lia|].
    rewrite length_app. simpl. lia.
  - by apply Nat.ltb_ge in Hover.
Qed.

Lemma recordCall_ok ok d now m :
  (successCalls m ≤ totalCalls m)%nat → metricsOk (recordCall ok d now m).
Proof. intros Hle. unfold metricsOk. simpl. destruct ok; lia. Qed.

Lemma trackModelCall_cases model ok d now e :
  trackModelCall model ok d now e = e
  ∨ trackModelCall model ok d now e = recordOwn model ok d now e.
Proof. unfold trackModelCall. destruct (_ && _); auto. Qed.

Lemma trackModelCall_own model ok d now e :
  inherited model = false →
  trackModelCall model ok d now e = recordOwn model ok d now e.
Proof. intros Hown. unfold trackModelCall. by rewrite Hown. Qed.

(** [trackModelCall] touches nothing but the metrics. *)
Lemma trackModelCall_frame model ok d now e :
  let e' := trackModelCall model ok d now e in
  snapshots e' = snapshots e ∧ activeRequests e' = activeRequests e
  ∧ responseTimes e' = responseTimes e ∧ errors e' = errors e
  ∧ monitorInterval e' = monitorInterval e.
Proof. by destruct (trackModelCall_cases model ok d now e) as [-> | ->]. Qed.

Lemma initial_ok : engineOk initial.
Proof.
  split; simpl; try lia.
  intros name m Hm. by rewrite lookup_empty in Hm.
Qed.

Lemma step_ok e o : engineOk e → engineOk (step e o).
Proof.
  intros [Hm Ha Hs Hr]. destruct o as [|d ok t1 t2|model ok d now|h now|h now|]; simpl.
  - split; simpl; auto; lia.
  - split; simpl; auto; [lia|]. by apply push_bounded_length.
  - destruct (trackModelCall_cases model ok d now e) as [-> | ->]; [by split|].
    split; simpl; auto.
    intros name m. destruct (decide (model = name)) as [->|Hne].
    + rewrite lookup_insert_eq. intros [= <-]. apply recordCall_ok.
      destruct (modelMetrics e !! name) as [m0|] eqn:Hm0; simpl; [|lia].
      by destruct (Hm _ _ Hm0).
    + rewrite lookup_insert_ne by done. apply Hm.
  - split; simpl; auto. by apply push_bounded_length.
  - split; simpl; auto. by apply push_bounded_length.
  - by split.
Qed.

Lemma run_ok ops e : engineOk e → engineOk (run ops e).
Proof.
  revert e. induction ops as [|o ops IH]; intros e He; simpl; [done|].
  apply IH. by apply step_ok.
Qed.

(** C2.  After every sequence of engine operations from the initial state,
    every stored provider's success rate lies in [0,1], the active request
    count is not negative, the snapshot history holds at most 1000
    snapshots and the response-time window at most 100 samples. *)
Theorem engine_invariants (ops : list op) :
  let e := run ops initial in
  (∀ name m, modelMetrics e !! name = Some m →
     (0 <= successRate m)%Q ∧ (successRate m <= 1)%Q)
  ∧ 0 ≤ activeRequests e
  ∧ (length (snapshots e) ≤ 1000)%nat
  ∧ (length (responseTimes e) ≤ 100)%nat.
Proof.
  intros e. destruct (run_ok ops initial initial_ok) as [Hm Ha Hs Hr].
  split; [|done].
  intros name m Hlookup. apply successRate_bounds.
  by destruct (Hm name m Hlookup).
Qed.

(** The invariants at work on the provider "veo-3" after ten recorded
    calls. *)
Lemma engine_invariants_witness :
  ∃ m, modelMetrics (run fourOfFive_twoOfFive initial) !! "veo-3"%string = Some m
       ∧ (0 <= successRate m)%Q ∧ (successRate m <= 1)%Q.
Proof.
  eexists. split; [vm_compute; reflexivity|].
  apply (proj1 (engine_invariants fourOfFive_twoOfFive) "veo-3"%string).
  vm_compute. reflexivity.
Defined.

(** ** Histories and windows *)

Lemma slice_from_end_mostRecent {A} (k : nat) (xs : list A) :
  slice_from_end k xs = mostRecent k xs.
Proof.
  unfold slice_from_end, mostRecent.
  by rewrite firstn_rev, rev_involutive.
Qed.

Lemma mostRecent_length {A} (n : nat) (xs : list A) :
  length (mostRecent n xs) = (n `min` length xs)%nat.
Proof. unfold mostRecent. by rewrite length_rev, length_take, length_rev. Qed.

Lemma mostRecent_all {A} (n : nat) (xs : list A) :
  (length xs ≤ n)%nat → mostRecent n xs = xs.
Proof.
  intros Hle. unfold mostRecent.
  rewrite take_ge by (rewrite length_rev; lia). apply rev_involutive.
Qed.

Lemma mostRecent_suffix {A} (n : nat) (xs : list A) :
  ∃ older, xs = older ++ mostRecent n xs.
Proof.
  exists (take (length xs - n) xs).
  rewrite <- slice_from_end_mostRecent. unfold slice_from_end.
  by rewrite take_drop.
Qed.

Lemma mostRecent_app {A} (n : nat) (xs ys : list A) :
  mostRecent n (mostRecent n xs ++ ys) = mostRecent n (xs ++ ys).
Proof.
  unfold mostRecent. f_equal.
  rewrite !rev_app_distr, rev_involutive, !take_app, take_take.
  do 2 f_equal. lia.
Qed.

Lemma mostRecent_last {A} (n : nat) (xs : list A) :
  (0 < n)%nat → last (mostRecent n xs) = last xs.
Proof.
  intros Hn. destruct (mostRecent_suffix n xs) as [older Heq].
  destruct (mostRecent n xs) as [|y ys] eqn:Hrec.
  - apply (f_equal length) in Hrec. rewrite mostRecent_length in Hrec.
    simpl in Hrec. destruct xs; [done | simpl in Hrec; lia].
  - rewrite Heq. by rewrite last_app_cons.
Qed.

(** Push, then shift once when the capacity is exceeded: on a window
    within capacity this keeps the most recent [cap] samples. *)
Lemma push_bounded_mostRecent {A} (cap : nat) (xs : list A) (x : A) :
  (length xs ≤ cap)%nat →
  (if (cap <? length (xs ++ [x]))%nat then shift (xs ++ [x]) else xs ++ [x])
  = mostRecent cap (xs ++ [x]).
Proof.
  intros Hle. rewrite <- slice_from_end_mostRecent. unfold slice_from_end, shift.
  rewrite length_app. simpl.
  destruct (cap <? length xs + 1)%nat eqn:Hover.
  - apply Nat.ltb_lt in Hover.
    replace (length xs + 1 - cap)%nat with 1%nat by lia.
    by destruct xs.
  - apply Nat.ltb_ge in Hover.
    by replace (length xs + 1 - cap)%nat with 0%nat by lia.
Qed.

Lemma responseTimes_step (e : SelfPerformanceEngine) (o : op) :
  (length (responseTimes e) ≤ MAX_RESPONSE_TIMES)%nat →
  responseTimes (step e o)
  = mostRecent MAX_RESPONSE_TIMES (responseTimes e ++ durations [o]).
Proof.
  intros Hle.
  destruct o as [|d ok t1 t2|model ok d now|h now|h now|]; simpl;
    rewrite ?app_nil_r; try by rewrite mostRecent_all.
  - by apply push_bounded_mostRecent.
  - destruct (trackModelCall_frame model ok d now e) as (_ & _ & -> & _).
    by rewrite mostRecent_all.
Qed.

Lemma responseTimes_run (ops : list op) (e : SelfPerformanceEngine) :
  engineOk e →
  responseTimes (run ops e)
  = mostRecent MAX_RESPONSE_TIMES (responseTimes e ++ durations ops).
Proof.
  revert e. induction ops as [|o ops IH]; intros e He.
  - simpl. rewrite app_nil_r. symmetry. apply mostRecent_all, He.
  - change (run (o :: ops) e) with (run ops (step e o)).
    rewrite IH by (by apply step_ok).
    rewrite responseTimes_step by apply He.
    change (o :: ops) with ([o] ++ ops). unfold durations at 3.
    rewrite omap_app. fold (durations [o]) (durations ops).
    by rewrite mostRecent_app, app_assoc.
Qed.

(** C7.  The response-time window is a FIFO buffer of capacity 100: after
    any sequence of operations it holds the most recent 100 durations given
    to [trackRequestEnd], oldest first; one more [trackRequestEnd] appends
    its duration and, when the window is full, drops exactly the oldest
    sample; and after 101 insertions the window is the 2nd to the 101st
    inserted sample, so the first is gone and the newest is present. *)
Theorem responseTimes_fifo (ops : list op) (d : num) (ok : bool) (t1 t2 : Z) :
  let e := run ops initial in
  let w := responseTimes e in
  w = mostRecent 100 (durations ops)
  ∧ responseTimes (trackRequestEnd d ok t1 t2 e)
    = (if (length w <? 100)%nat then w ++ [d] else tail w ++ [d])
  ∧ (∀ first mid newest,
       durations ops = first :: mid ++ [newest] → length mid = 99%nat →
       w = mid ++ [newest]).
Proof.
  intros e w.
  assert (Hw : w = mostRecent 100 (durations ops)).
  { unfold w, e. by rewrite responseTimes_run by apply initial_ok. }
  assert (Hlen : (length w ≤ 100)%nat).
  { rewrite Hw, mostRecent_length. lia. }
  split; [exact Hw|]. split.
  - simpl. fold w. unfold MAX_RESPONSE_TIMES, shift. rewrite length_app. simpl.
    destruct (length w <? 100)%nat eqn:Hlt.
    + apply Nat.ltb_lt in Hlt.
      by replace (100 <? length w + 1)%nat with false
        by (symmetry; apply Nat.ltb_ge; lia).
    + apply Nat.ltb_ge in Hlt.
      replace (100 <? length w + 1)%nat with true
        by (symmetry; apply Nat.ltb_lt; lia).
      destruct w; [simpl in Hlt; lia | done].
  - intros first mid newest Hds Hmid. rewrite Hw, Hds.
    change (first :: mid ++ [newest]) with ([first] ++ (mid ++ [newest])).
    rewrite <- (mostRecent_all 100 (mid ++ [newest])) at 2
      by (rewrite length_app; simpl; lia).
    unfold mostRecent. f_equal.
    rewrite rev_app_distr, take_app.
    replace (100 - length (rev (mid ++ [newest])))%nat with 0%nat
      by (rewrite length_rev, length_app; simpl; lia).
    by rewrite take_0, app_nil_r.
Qed.

(** After the 101 durations 0, 1, ..., 100 the window holds 1, ..., 100. *)
Lemma responseTimes_fifo_witness :
  responseTimes (run hundredAndOneRequests initial)
  = (ofZ <$> seqZ 1 99) ++ [ofZ 100].
Proof.
  apply (proj2 (proj2 (responseTimes_fifo hundredAndOneRequests (ofZ 0) true 0 0))
           (ofZ 0) (ofZ <$> seqZ 1 99) (ofZ 100)).
  - vm_compute. reflexivity.
  - vm_compute. reflexivity.
Defined.

(** ** Readers *)

Lemma captureSnapshot_frame (h : Host) (now : Z) (e : SelfPerformanceEngine) :
  let e' := (captureSnapshot h now e).2 in
  modelMetrics e' = modelMetrics e
  ∧ activeRequests e' = activeRequests e
  ∧ responseTimes e' = responseTimes e
  ∧ errors e' = errors e
  ∧ monitorInterval e' = monitorInterval e.
Proof. done. Qed.

Lemma captureSnapshot_history (h : Host) (now : Z) (e : SelfPerformanceEngine) :
  let snapshot := (captureSnapshot h now e).1 in
  let e' := (captureSnapshot h now e).2 in
  last (snapshots e') = Some snapshot
  ∧ (snapshots e' = snapshots e ++ [snapshot]
     ∨ snapshots e' = tail (snapshots e ++ [snapshot])
       ∧ (MAX_SNAPSHOTS ≤ length (snapshots e))%nat).
Proof.
  simpl. destruct (MAX_SNAPSHOTS <? _)%nat eqn:Hover.
  - apply Nat.ltb_lt in Hover. rewrite length_app in Hover. simpl in Hover.
    split; [|right; split; [done | lia]].
    unfold shift. destruct (snapshots e) as [|s0 rest]; simpl in *.
    + unfold MAX_SNAPSHOTS in Hover. lia.
    + by rewrite last_snoc.
  - split; [by rewrite last_snoc | by left].
Qed.

(** C4, as stated, fails: [getCurrentMetrics] on the fresh engine leaves an
    engine that differs from the fresh engine. *)
Lemma getCurrentMetrics_changes_state :
  (getCurrentMetrics sampleHost 0 initial).2 ≠ initial.
Proof.
  intros Heq. apply (f_equal (λ e, length (snapshots e))) in Heq.
  simpl in Heq. discriminate.
Qed.

(** C4, amended.  [getHistory] leaves the whole engine state unchanged.
    [getCurrentMetrics] leaves the per-provider metrics, the active request
    count, the response-time window, the error window and the timer handle
    unchanged; it appends the snapshot it returns to the history, dropping
    the oldest snapshot when the history would exceed its capacity. *)
Theorem readers_frame (h : Host) (now : Z) (e : SelfPerformanceEngine) :
  (getHistory e).2 = e
  ∧ let snapshot := (getCurrentMetrics h now e).1 in
    let e' := (getCurrentMetrics h now e).2 in
    (modelMetrics e' = modelMetrics e
     ∧ activeRequests e' = activeRequests e
     ∧ responseTimes e' = responseTimes e
     ∧ errors e' = errors e
     ∧ monitorInterval e' = monitorInterval e)
    ∧ last (snapshots e') = Some snapshot
    ∧ (snapshots e' = snapshots e ++ [snapshot]
       ∨ snapshots e' = tail (snapshots e ++ [snapshot])
         ∧ (MAX_SNAPSHOTS ≤ length (snapshots e))%nat).
Proof.
  split; [done|]. unfold getCurrentMetrics.
  split; [apply captureSnapshot_frame | apply captureSnapshot_history].
Qed.

(** C6, as stated, fails: on a history of two snapshots [getHistory] does
    not return the most recent 1 snapshot; it takes no count and returns
    both. *)
Lemma getHistory_ignores_count :
  (getHistory twoSnapshots).1 ≠ mostRecent 1 (snapshots twoSnapshots).
Proof.
  intros Heq. apply (f_equal length) in Heq.
  rewrite mostRecent_length in Heq. simpl in Heq. discriminate.
Qed.

(** C6, amended.  [getHistory] takes no count: it returns the most recent
    50 snapshots of the history (all of them when there are fewer), oldest
    first, and leaves the engine state unchanged. *)
Theorem getHistory_most_recent_50 (e : SelfPerformanceEngine) :
  (getHistory e).1 = mostRecent 50 (snapshots e)
  ∧ (∃ older, snapshots e = older ++ (getHistory e).1)
  ∧ length (getHistory e).1 = (50 `min` length (snapshots e))%nat
  ∧ (getHistory e).2 = e.
Proof.
  unfold getHistory. cbn [fst snd]. rewrite slice_from_end_mostRecent.
  repeat split; [apply mostRecent_suffix | apply mostRecent_length].
Qed.

(** ** Sampling *)

(** What [trackRequestEnd] leaves in the error window lies after its
    cutoff, and failures older than the window are gone after it. *)
Lemma trackRequestEnd_prunes (d : num) (ok : bool) (nowPush nowPrune : Z)
    (e : SelfPerformanceEngine) (t : Z) :
  t ∈ errors (trackRequestEnd d ok nowPush nowPrune e) → nowPrune - 60000 < t.
Proof. simpl. rewrite list_elem_of_filter. by intros [Hlt _]. Qed.

Example errors_pruned_at_next_request :
  errors (trackRequestEnd (ofZ 100) true 61000 61000 oneFailure) = [].
Proof. reflexivity. Qed.

(** C3 at its failing input: one failed request ends at time 0 and the
    next access is a snapshot at time 61000.  No failure lies in the 60
    seconds before the capture, yet the snapshot reports one, and the
    error window still holds the stale entry. *)
Theorem errorRate_is_stale (h : Host) :
  let capture := captureSnapshot h 61000 oneFailure in
  Snapshot.errorRate capture.1 = 1%nat
  ∧ errors capture.2 = [0]
  ∧ failuresWithinWindow 61000 [0] = [].
Proof. done. Qed.

(** C5 at its failing input: with an empty CPU list the snapshot that is
    returned and appended carries NaN, not 0, as its CPU usage. *)
Theorem cpuUsage_nan_without_cpus (total free : N) (now : Z) (e : SelfPerformanceEngine) :
  let capture := captureSnapshot (noCpuHost total free) now e in
  Snapshot.cpuUsage capture.1 = NaN
  ∧ last (snapshots capture.2) = Some capture.1.
Proof.
  split; [done|].
  apply (captureSnapshot_history (noCpuHost total free) now e).
Qed.

(** ** Routing *)

Section BestOfSorted.
Context {A : Type} (r : A → Q) (P : A → bool).

Lemma head_sort_insert (x : A) (sorted : list A) :
  head (sort_insert (descending r) x sorted)
  = Some (match sorted with
          | [] => x
          | y :: _ => if Qle_bool (descending r x y) 0 then x else y
          end).
Proof. destruct sorted as [|y rest]; simpl; [done|]. by destruct (Qle_bool _ _). Qed.

(** The head of the sorted filtered list is the first element of
    greatest [r] among those that pass the filter. *)
Lemma head_sort_filter (l : list A) :
  match head (sort (descending r) (List.filter P l)) with
  | None => ∀ x, x ∈ l → P x = false
  | Some b =>
      ∃ i, l !! i = Some b ∧ P b = true
           ∧ (∀ j y, l !! j = Some y → P y = true → (r y <= r b)%Q)
           ∧ (∀ j y, l !! j = Some y → P y = true → (j < i)%nat → (r y < r b)%Q)
  end.
Proof.
  induction l as [|x rest IH]; simpl.
  - intros x Hx. by apply elem_of_nil in Hx.
  - destruct (P x) eqn:HPx; simpl.
    + rewrite head_sort_insert.
      destruct (sort (descending r) (List.filter P rest)) as [|y sorted]; simpl in IH.
      * exists 0%nat. repeat split; try done.
        -- intros [|j] z Hz HPz; simpl in Hz.
           ++ injection Hz as <-. apply Qle_refl.
           ++ apply list_elem_of_lookup_2 in Hz. rewrite (IH z Hz) in HPz. done.
        -- intros j z _ _ Hj. lia.
      * destruct IH as (i & Hi & HPy & Hmax & Hfirst).
        destruct (Qle_bool (descending r x y) 0) eqn:Hcmp.
        -- apply Qle_bool_iff in Hcmp. unfold descending in Hcmp.
           exists 0%nat. repeat split; try done.
           ++ intros [|j] z Hz HPz; simpl in Hz.
              ** injection Hz as <-. apply Qle_refl.
              ** specialize (Hmax j z Hz HPz). lra.
           ++ intros j z _ _ Hj. lia.
        -- assert (Hlt : (r x < r y)%Q).
           { destruct (Qlt_le_dec (r x) (r y)) as [Hlt|Hge]; [done|].
             assert (Qle_bool (descending r x y) 0 = true) as Habs
               by (apply Qle_bool_iff; unfold descending; lra).
             rewrite Habs in Hcmp. done. }
           exists (S i). repeat split; try done.
           ++ intros [|j] z Hz HPz; simpl in Hz.
              ** injection Hz as <-. lra.
              ** by apply (Hmax j).
           ++ intros [|j] z Hz HPz Hj; simpl in Hz.
              ** by injection Hz as <-.
              ** apply (Hfirst j); [done | done | lia].
    + destruct (head (sort (descending r) (List.filter P rest))) as [b|].
      * destruct IH as (i & Hi & HPb & Hmax & Hfirst).
        exists (S i). repeat split; try done.
        -- intros [|j] z Hz HPz; simpl in Hz.
           ++ injection Hz as <-. rewrite HPx in HPz. done.
           ++ by apply (Hmax j).
        -- intros [|j] z Hz HPz Hj; simpl in Hz.
           ++ injection Hz as <-. rewrite HPx in HPz. done.
           ++ apply (Hfirst j); [done | done | lia].
      * intros z Hz. apply elem_of_cons in Hz as [->|Hz]; [done | by apply IH].
Qed.
End BestOfSorted.

Lemma hasMetrics_calls (e : SelfPerformanceEngine) (name : string) :
  engineOk e → hasMetrics e name = true ↔ (0 < callsOf e name)%nat.
Proof.
  intros He. unfold hasMetrics, callsOf.
  rewrite bool_decide_eq_true.
  destruct (modelMetrics e !! name) as [m|] eqn:Hm; simpl.
  - destruct (ok_metrics e He name m Hm). split; [lia | eauto].
  - split; [by intros [? ?] | lia].
Qed.


Lemma candidate_names_truthy (t : taskType) (name : string) :
  name ∈ modelsByTask t → String.eqb name "" = false.
Proof.
  intros Hin. destruct t; simpl in Hin;
    repeat (apply elem_of_cons in Hin as [->|Hin]; [done|]);
    by apply elem_of_nil in Hin.
Qed.




Example getBestModel_default_music :
  getBestModel Music initial = Some "suno-v3.5"%string.
Proof. vm_compute. reflexivity. Qed.

Example getBestModel_default_voice :
  getBestModel Voice (run fourOfFive_twoOfFive initial) = Some "eleven-v3"%string.
Proof. vm_compute. reflexivity. Qed.

(** ** Alerting *)

Lemma Qltb_lt (x y : Q) : Qltb x y = true ↔ (x < y)%Q.
Proof.
  unfold Qltb. rewrite negb_true_iff. split.
  - intros Hb. apply Qnot_le_lt. intros Hle.
    apply Qle_bool_iff in Hle. congruence.
  - intros Hlt. destruct (Qle_bool y x) eqn:Hb; [|done].
    apply Qle_bool_iff in Hb. by apply Qlt_not_le in Hlt.
Qed.

Lemma isLowPerforming_spec (m : ModelMetrics) :
  isLowPerforming m = true
  ↔ (6 ≤ totalCalls m)%nat ∧ (ratio (successCalls m) (totalCalls m) < 7 # 10)%Q.
Proof.
  unfold isLowPerforming. rewrite andb_true_iff, Nat.ltb_lt, Qltb_lt.
  split; intros [Hcalls Hrate]; (split; [lia | done]).
Qed.

Lemma lowPerformingModels_spec (e : SelfPerformanceEngine) (name : string) :
  name ∈ lowPerformingModels e ↔ lowPerforming e name.
Proof.
  unfold lowPerformingModels, lowPerforming. rewrite list_elem_of_fmap. split.
  - intros ([name' m] & -> & Hin). simpl.
    apply list_elem_of_In, filter_In in Hin as [Hin Hlow].
    apply list_elem_of_In, elem_of_map_to_list in Hin.
    exists m. split; [done|]. by apply isLowPerforming_spec.
  - intros (m & Hm & Hlow). exists (name, m). split; [done|].
    apply list_elem_of_In, filter_In. split.
    + by apply list_elem_of_In, elem_of_map_to_list.
    + by apply isLowPerforming_spec.
Qed.

Lemma analyseAndAdapt_cold (e : SelfPerformanceEngine) :
  (length (snapshots e) < 3)%nat → analyseAndAdapt e = [].
Proof.
  intros Hlt. unfold analyseAndAdapt.
  rewrite slice_from_end_mostRecent, mostRecent_length.
  by replace (6 `min` length (snapshots e) <? 3)%nat with true
    by (symmetry; apply Nat.ltb_lt; lia).
Qed.

Lemma analyseAndAdapt_warm (e : SelfPerformanceEngine) :
  (3 ≤ length (snapshots e))%nat →
  ∃ latest, last (snapshots e) = Some latest ∧
    let recent := mostRecent 6 (snapshots e) in
    let avgCPU :=
      div64 (sum64 ((λ s, toBinary64 (Snapshot.cpuUsage s)) <$> recent))
            (ofZ64 (Z.of_nat (length recent))) in
    let avgErrors :=
      ndiv (nsum ((λ s, ofnat (Snapshot.errorRate s)) <$> recent)) (ofnat (length recent)) in
    let avgMemPct :=
      mul64 (div64 (toBinary64 (Snapshot.memoryUsedMB latest))
                   (toBinary64 (Snapshot.memoryTotalMB latest)))
            (ofZ64 100) in
    analyseAndAdapt e
    = (if gt64 avgCPU (ofZ64 85) then [HighCpu avgCPU] else [])
      ++ (if gt64 avgMemPct (ofZ64 85) then [HighMemory avgMemPct] else [])
      ++ (if ngt avgErrors (ofZ 5) then [HighErrorRate avgErrors] else [])
      ++ (if (0 <? length (lowPerformingModels e))%nat
          then [LowPerformingModels (lowPerformingModels e)] else []).
Proof.
  intros Hge.
  destruct (last (snapshots e)) as [latest|] eqn:Hlast.
  2: { apply last_None in Hlast. rewrite Hlast in Hge. simpl in Hge. lia. }
  exists latest. split; [done|]. intros recent avgCPU avgErrors avgMemPct.
  subst recent avgCPU avgErrors avgMemPct.
  unfold analyseAndAdapt. rewrite slice_from_end_mostRecent.
  rewrite mostRecent_last by lia. rewrite Hlast.
  replace (length (mostRecent 6 (snapshots e)) <? 3)%nat with false; [done|].
  symmetry. apply Nat.ltb_ge. rewrite mostRecent_length. lia.
Qed.

Ltac warning_membership :=
  rewrite ?elem_of_app;
  repeat match goal with
    | |- context [if ?c then _ else _] => destruct c eqn:?
    end;
  rewrite ?list_elem_of_singleton, ?elem_of_nil;
  split; intros; destruct_or?; destruct_and?;
  simplify_eq; try done; eauto 6.

(** C8.  A low-performing-model warning that the alerting step emits lists
    a provider exactly when the provider's metrics show at least 6 recorded
    calls and a success rate strictly below 0.7.  The step emits that
    warning exactly when the history holds at least 3 snapshots and some
    provider is in that condition. *)
Theorem lowPerforming_warning (e : SelfPerformanceEngine) :
  (∀ names, LowPerformingModels names ∈ analyseAndAdapt e →
     ∀ name, name ∈ names ↔ lowPerforming e name)
  ∧ ((∃ names, LowPerformingModels names ∈ analyseAndAdapt e)
     ↔ (3 ≤ length (snapshots e))%nat ∧ ∃ name, lowPerforming e name).
Proof.
  destruct (decide (length (snapshots e) < 3)%nat) as [Hcold|Hwarm].
  - rewrite (analyseAndAdapt_cold e Hcold). split.
    + intros names Hin. by apply elem_of_nil in Hin.
    + split; [intros [names Hin]; by apply elem_of_nil in Hin | lia].
  - destruct (analyseAndAdapt_warm e ltac:(lia)) as (latest & _ & Heq).
    cbv zeta in Heq.
    assert (Hlisted : ∀ names,
      LowPerformingModels names
        ∈ (if (0 <? length (lowPerformingModels e))%nat
           then [LowPerformingModels (lowPerformingModels e)] else [])
      ↔ names = lowPerformingModels e ∧ lowPerformingModels e ≠ []).
    { intros names. destruct (lowPerformingModels e) as [|n0 ns]; simpl.
      - rewrite elem_of_nil. split; [done | by intros [_ ?]].
      - rewrite list_elem_of_singleton. split; [by intros [= ->] | by intros [-> _]]. }
    assert (Hemit : ∀ names,
      LowPerformingModels names ∈ analyseAndAdapt e
      ↔ names = lowPerformingModels e ∧ lowPerformingModels e ≠ [])
      by (intros names; rewrite Heq, <- Hlisted; warning_membership).
    split.
    + intros names Hin name. apply Hemit in Hin as [-> _].
      apply lowPerformingModels_spec.
    + split.
      * intros [names Hin]. apply Hemit in Hin as [_ Hne]. split; [lia|].
        destruct (lowPerformingModels e) as [|n0 ns] eqn:Hlow; [done|].
        exists n0. apply lowPerformingModels_spec. rewrite Hlow. left.
      * intros [_ [name Hname]]. exists (lowPerformingModels e).
        apply Hemit. split; [done|]. apply lowPerformingModels_spec in Hname.
        intros Hnil. rewrite Hnil in Hname. by apply elem_of_nil in Hname.
Qed.

(** Six failed calls to "y" and three snapshots: the warning lists "y". *)
Lemma lowPerforming_warning_witness :
  LowPerformingModels ["y"%string] ∈ analyseAndAdapt sixFailedCalls
  ∧ lowPerforming sixFailedCalls "y".
Proof.
  assert (Hin : LowPerformingModels ["y"%string] ∈ analyseAndAdapt sixFailedCalls).
  { replace (analyseAndAdapt sixFailedCalls) with [LowPerformingModels ["y"%string]]
      by (vm_compute; reflexivity).
    left. }
  split; [exact Hin|].
  apply (proj1 (lowPerforming_warning sixFailedCalls) ["y"%string] Hin "y"%string).
  left.
Defined.

(** C9.  With fewer than 3 snapshots in the history the alerting step
    emits nothing.  With at least 3, the CPU figure and the error figure
    are the averages of [cpuUsage] and [errorRate] over the most recent 6
    snapshots (all of them when there are fewer), the memory figure is the
    used percentage of the latest snapshot, and the CPU, memory and error
    warnings are emitted exactly when the CPU average exceeds 85, the
    memory percentage exceeds 85 and the error average exceeds 5.  The CPU
    average and the memory percentage are the binary64 numbers the program
    computes. *)
Theorem analyseAndAdapt_thresholds (e : SelfPerformanceEngine) :
  let history := snapshots e in
  let recent := mostRecent 6 history in
  let avgCPU :=
    div64 (sum64 ((λ s, toBinary64 (Snapshot.cpuUsage s)) <$> recent))
          (ofZ64 (Z.of_nat (length recent))) in
  let avgErrors :=
    ndiv (nsum ((λ s, ofnat (Snapshot.errorRate s)) <$> recent)) (ofnat (length recent)) in
  ((length history < 3)%nat → analyseAndAdapt e = [])
  ∧ ((3 ≤ length history)%nat →
     ∃ latest, last history = Some latest ∧
       let avgMemPct :=
         mul64 (div64 (toBinary64 (Snapshot.memoryUsedMB latest))
                      (toBinary64 (Snapshot.memoryTotalMB latest)))
               (ofZ64 100) in
       (∀ x, HighCpu x ∈ analyseAndAdapt e ↔ x = avgCPU ∧ gt64 avgCPU (ofZ64 85) = true)
       ∧ (∀ x, HighMemory x ∈ analyseAndAdapt e
               ↔ x = avgMemPct ∧ gt64 avgMemPct (ofZ64 85) = true)
       ∧ (∀ x, HighErrorRate x ∈ analyseAndAdapt e
               ↔ x = avgErrors ∧ ngt avgErrors (ofZ 5) = true)).
Proof.
  intros history recent avgCPU avgErrors.
  split; [apply analyseAndAdapt_cold|]. intros Hwarm.
  destruct (analyseAndAdapt_warm e Hwarm) as (latest & Hlast & Heq).
  exists latest. split; [done|]. intros avgMemPct.
  cbv zeta in Heq. fold history recent avgCPU avgErrors avgMemPct in Heq.
  rewrite Heq. clear Heq.
  generalize dependent avgCPU. generalize dependent avgErrors.
  generalize dependent avgMemPct. intros avgMemPct avgErrors avgCPU.
  split; [|split]; intros x; warning_membership.
Qed.

(** The exact mean of 80.2, 84.9 and 89.9 is 85 and exceeds nothing. *)
Example exact_mean_of_tenths :
  (((802 # 10) + (849 # 10) + (899 # 10)) / 3 == 85)%Q.
Proof. reflexivity. Qed.

(** Three snapshots at 80.2, 84.9 and 89.9: in binary64 their mean is
    85.00000000000001, the first number above 85, and the CPU warning is
    emitted with it; the memory figure, 75, and the error figure, 0, stay
    silent.  The fresh engine emits nothing. *)
Lemma analyseAndAdapt_thresholds_witness :
  analyseAndAdapt initial = []
  ∧ analyseAndAdapt nearThreshold
    = [HighCpu (SpecFloat.S754_finite false 5981343255101441 (-46))].
Proof.
  split.
  - apply (proj1 (analyseAndAdapt_thresholds initial)). simpl. lia.
  - destruct (proj2 (analyseAndAdapt_thresholds nearThreshold))
      as (latest & _ & Hcpu & _ & _); [vm_compute; lia|].
    assert (Hin : HighCpu (SpecFloat.S754_finite false 5981343255101441 (-46))
                  ∈ analyseAndAdapt nearThreshold)
      by (apply Hcpu; split; vm_compute; reflexivity).
    destruct (analyseAndAdapt nearThreshold) as [|w [|w' ws]] eqn:Hout;
      [by apply elem_of_nil in Hin | | vm_compute in Hout; discriminate].
    apply list_elem_of_singleton in Hin. by rewrite Hin.
Defined.

(** ** Monitoring timer *)

Lemma step_monitorInterval (e : SelfPerformanceEngine) (o : op) :
  monitorInterval (step e o) = monitorInterval e.
Proof.
  destruct o as [|d ok t1 t2|model ok d now|h now|h now|]; try done.
  apply trackModelCall_frame.
Qed.

Lemma orphaned_step (first : nat) (w : SelfPerformanceEngine * runtime) (ev : event) :
  orphaned first w → orphaned first (eventStep w ev).
Proof.
  destruct w as [e rt]. unfold orphaned. simpl. intros (Hin & Hlt & Hheld).
  destruct ev as [o| | |handle h now]; simpl.
  - by rewrite step_monitorInterval.
  - repeat split; [set_solver | lia | by intros held [= <-]].
  - unfold stopMonitoring. simpl.
    destruct (monitorInterval e) as [held|] eqn:Hheldeq; simpl.
    + specialize (Hheld held eq_refl). repeat split; [|done|done].
      apply elem_of_difference. split; [done|].
      rewrite elem_of_singleton. lia.
    + by rewrite Hheldeq.
  - unfold timerFires. simpl. by destruct (bool_decide (handle ∈ timers rt)).
Qed.

Lemma orphaned_run (first : nat) (evs : list event)
    (w : SelfPerformanceEngine * runtime) :
  orphaned first w → orphaned first (fold_left eventStep evs w).
Proof.
  revert w. induction evs as [|ev evs IH]; intros w Hw; simpl; [done|].
  apply IH. by apply orphaned_step.
Qed.

(** C10.  [startMonitoring] overwrites the stored handle without clearing
    the timer it named.  After two starts with no stop between them the
    engine holds the handle of the second timer and no longer that of the
    first, and whatever happens later (any sequence of [stopMonitoring]
    calls, of other calls, of timer expiries) the first timer is still
    scheduled, so each of its expiries still takes a snapshot. *)
Theorem first_timer_never_stopped (e : SelfPerformanceEngine) (rt : runtime)
    (evs : list event) :
  let first := nextTimer rt in
  let twice := startMonitoring (startMonitoring (e, rt)) in
  let later := fold_left eventStep evs twice in
  monitorInterval (startMonitoring (e, rt)).1 = Some first
  ∧ monitorInterval twice.1 = Some (S first)
  ∧ first ∈ timers twice.2
  ∧ first ∈ timers later.2
  ∧ ∀ h now, (timerFires first h now later).2.1 = (captureSnapshot h now later.1).2.
Proof.
  intros first twice later.
  assert (Hlater : first ∈ timers later.2).
  { apply orphaned_run. unfold orphaned. simpl.
    repeat split; [set_solver | lia | intros held [= <-]; lia]. }
  repeat split; try done.
  - simpl. set_solver.
  - intros h now. unfold timerFires. by rewrite bool_decide_eq_true_2.
Qed.

(** * Further properties *)

(** ** Per-provider metrics *)

Lemma run_snoc (ops : list op) (o : op) (e : SelfPerformanceEngine) :
  run (ops ++ [o]) e = step (run ops e) o.
Proof. unfold run. by rewrite fold_left_app. Qed.

Lemma callsTo_snoc (name : string) (ops : list op) (o : op) :
  callsTo name (ops ++ [o]) = callsTo name ops ++ callsTo name [o].
Proof. unfold callsTo. by rewrite omap_app. Qed.

Lemma nsum_snoc (xs : list num) (x : num) : nsum (xs ++ [x]) = nadd (nsum xs) x.
Proof. unfold nsum. by rewrite fold_left_app. Qed.

Lemma entryOf_snoc (calls : list (bool * num * Z)) (ok : bool) (d : num) (now : Z) :
  entryOf (calls ++ [(ok, d, now)])
  = Some (recordCall ok d now (default freshMetrics (entryOf calls))).
Proof.
  unfold entryOf at 1. rewrite last_snoc. unfold recordCall. f_equal.
  assert (Hsucc : length (succeeded (calls ++ [(ok, d, now)]))
                  = if ok then S (length (succeeded calls)) else length (succeeded calls)).
  { unfold succeeded. rewrite List.filter_app, length_app. simpl.
    destruct ok; simpl; lia. }
  rewrite Hsucc, length_app, fmap_app.
  change ((λ c : bool * num * Z, c.1.2) <$> [(ok, d, now)]) with [d].
  rewrite nsum_snoc. simpl.
  unfold entryOf. destruct (last calls) as [latest|] eqn:Hlast; simpl.
  - f_equal. lia.
  - apply last_None in Hlast. by subst calls.
Qed.

(** A call under an inherited name stores nothing: the engine stays as it
    is as long as the name is not an own key. *)
Lemma trackModelCall_inherited model ok d now e :
  inherited model = true → modelMetrics e !! model = None →
  trackModelCall model ok d now e = e.
Proof.
  intros Hinherited Hnone. unfold trackModelCall.
  by rewrite Hinherited, bool_decide_eq_true_2.
Qed.

Example trackModelCall_constructor :
  run [TrackModelCall "constructor" true (ofZ 200) 1;
       TrackModelCall "__proto__" false (ofZ 200) 2;
       TrackModelCall "toString" true (ofZ 200) 3] initial = initial.
Proof. reflexivity. Qed.

(** Without calls under inherited names, the entry of a provider in a
    reachable state is what its recorded calls add up to. *)
Lemma modelMetrics_run (ops : list op) (name : string) :
  forallb recordsOwnName ops = true →
  modelMetrics (run ops initial) !! name = entryOf (callsTo name ops).
Proof.
  induction ops as [|o ops IH] using rev_ind; [done|].
  rewrite forallb_app, andb_true_iff. intros [Hops Ho].
  specialize (IH Hops). rewrite run_snoc, callsTo_snoc.
  destruct o as [| | model ok d now | | |]; simpl; rewrite ?app_nil_r; try done.
  simpl in Ho. rewrite andb_true_r, negb_true_iff in Ho.
  rewrite trackModelCall_own by done. simpl.
  destruct (decide (model = name)) as [->|Hne].
  - rewrite lookup_insert_eq, IH. symmetry. apply entryOf_snoc.
  - rewrite lookup_insert_ne by done. by rewrite app_nil_r.
Qed.



(** ** Active requests *)

Lemma starts_snoc (ops : list op) (o : op) :
  starts (ops ++ [o])
  = (starts ops + match o with TrackRequestStart => 1 | _ => 0 end)%nat.
Proof. unfold starts. rewrite List.filter_app, length_app. by destruct o. Qed.

Lemma ends_snoc (ops : list op) (o : op) :
  ends (ops ++ [o])
  = (ends ops + match o with TrackRequestEnd _ _ _ _ => 1 | _ => 0 end)%nat.
Proof. unfold ends. rewrite List.filter_app, length_app. by destruct o. Qed.

Lemma endsFollowStarts_snoc (ops : list op) (o : op) :
  endsFollowStarts (ops ++ [o]) →
  endsFollowStarts ops ∧ (ends (ops ++ [o]) ≤ starts (ops ++ [o]))%nat.
Proof.
  intros Hall. split.
  - intros k. destruct (decide (k ≤ length ops)%nat) as [Hk|Hk].
    + specialize (Hall k). by rewrite take_app_le in Hall.
    + specialize (Hall (length ops)). rewrite take_app_length in Hall.
      by rewrite take_ge by lia.
  - specialize (Hall (length (ops ++ [o]))). by rewrite firstn_all in Hall.
Qed.

(** X2.  The active request count never exceeds the number of requests
    started and never falls below the number started minus the number
    ended; it equals that difference when no request ends before it
    started. *)
Theorem activeRequests_counts (ops : list op) :
  let e := run ops initial in
  Z.of_nat (starts ops) - Z.of_nat (ends ops) ≤ activeRequests e
  ∧ activeRequests e ≤ Z.of_nat (starts ops)
  ∧ (endsFollowStarts ops →
     activeRequests e = Z.of_nat (starts ops) - Z.of_nat (ends ops)).
Proof.
  induction ops as [|o ops IH] using rev_ind; [by repeat split|].
  cbv zeta in *. rewrite run_snoc, starts_snoc, ends_snoc.
  destruct IH as (Hlow & Hhigh & Hexact).
  assert (Hnonneg : 0 ≤ activeRequests (run ops initial))
    by apply run_ok, initial_ok.
  assert (Hcall : ∀ model ok d now,
            activeRequests (trackModelCall model ok d now (run ops initial))
            = activeRequests (run ops initial))
    by (intros; apply trackModelCall_frame).
  split; [|split].
  - destruct o; simpl; rewrite ?Hcall; lia.
  - destruct o; simpl; rewrite ?Hcall; lia.
  - intros Hbal. apply endsFollowStarts_snoc in Hbal as [Hbal Hlast].
    rewrite starts_snoc, ends_snoc in Hlast.
    specialize (Hexact Hbal). destruct o; simpl in *; rewrite ?Hcall; lia.
Qed.

(** Three requests start and two of them end: one is active. *)
Lemma activeRequests_counts_witness :
  activeRequests
    (run [TrackRequestStart; TrackRequestStart; TrackRequestEnd (ofZ 120) true 5 5;
          TrackRequestStart; TrackRequestEnd (ofZ 80) false 9 9] initial) = 1.
Proof.
  apply (activeRequests_counts
           [TrackRequestStart; TrackRequestStart; TrackRequestEnd (ofZ 120) true 5 5;
            TrackRequestStart; TrackRequestEnd (ofZ 80) false 9 9]).
  intros k. do 6 (destruct k as [|k]; [vm_compute; lia|]).
  vm_compute. lia.
Defined.

(** ** Error window *)

Lemma filter_filter_weaker (lo hi : Z) (ts : list Z) :
  lo ≤ hi →
  filter (λ t, hi < t) (filter (λ t, lo < t) ts) = filter (λ t, hi < t) ts.
Proof.
  intros Hle. induction ts as [|t ts IH]; [done|].
  rewrite !filter_cons. destruct (decide (lo < t)) as [Hlo|Hlo].
  - rewrite filter_cons. by rewrite IH.
  - rewrite IH. destruct (decide (hi < t)); [lia | done].
Qed.

Lemma failureTimes_snoc (ops : list op) (o : op) :
  failureTimes (ops ++ [o])
  = failureTimes ops ++ match o with TrackRequestEnd _ false t _ => [t] | _ => [] end.
Proof.
  unfold failureTimes. rewrite omap_app. f_equal.
  by destruct o as [|d [] t1 t2| | | |].
Qed.

Lemma pruneTimes_snoc (ops : list op) (o : op) :
  pruneTimes (ops ++ [o])
  = pruneTimes ops ++ match o with TrackRequestEnd _ _ _ t => [t] | _ => [] end.
Proof. unfold pruneTimes. rewrite omap_app. f_equal. by destruct o. Qed.

(** Seen through any cutoff that is not earlier than the cutoffs used so
    far, the stored window is the list of all recorded failures. *)
Lemma errors_run_filtered (ops : list op) (now : Z) :
  Forall (λ t, t ≤ now) (pruneTimes ops) →
  failuresWithinWindow now (errors (run ops initial))
  = failuresWithinWindow now (failureTimes ops).
Proof.
  unfold failuresWithinWindow, ERROR_WINDOW_MS.
  induction ops as [|o ops IH] using rev_ind; [done|].
  rewrite pruneTimes_snoc, Forall_app. intros [Hops Ho].
  rewrite run_snoc, failureTimes_snoc, filter_app, <- IH by done.
  destruct o as [|d ok t1 t2|model ok d at_| | |]; simpl;
    rewrite ?filter_nil, ?app_nil_r; try done.
  2: { by destruct (trackModelCall_frame model ok d at_ (run ops initial))
         as (_ & _ & _ & -> & _). }
  apply Forall_inv in Ho. simpl in Ho. unfold ERROR_WINDOW_MS.
  rewrite filter_filter_weaker by lia.
  destruct ok; simpl; [by rewrite filter_nil, app_nil_r | by rewrite filter_app].
Qed.

(** X3.  When the clock never runs backwards, the error window right
    after a [trackRequestEnd] holds exactly the failures recorded so far
    whose time stamps lie in the 60 seconds before that call, in the order
    they were recorded. *)
Theorem errors_after_trackRequestEnd (ops : list op) (d : num) (ok : bool)
    (nowPush nowPrune : Z) :
  Forall (λ t, t ≤ nowPrune) (pruneTimes ops) →
  let all := ops ++ [TrackRequestEnd d ok nowPush nowPrune] in
  errors (run all initial) = failuresWithinWindow nowPrune (failureTimes all).
Proof.
  intros Hclock all. unfold all.
  rewrite run_snoc, failureTimes_snoc. unfold failuresWithinWindow at 1.
  rewrite filter_app. fold (failuresWithinWindow nowPrune (failureTimes ops)).
  rewrite <- errors_run_filtered by done. unfold failuresWithinWindow.
  simpl. destruct ok; simpl.
  - by rewrite filter_nil, app_nil_r.
  - by rewrite filter_app.
Qed.

(** Failures at 1000 and 30000, a request that ends at 62000: only the
    failure of 30000 is left. *)
Lemma errors_after_trackRequestEnd_witness :
  errors (run [TrackRequestEnd (ofZ 90) false 1000 1000;
               TrackRequestEnd (ofZ 70) false 30000 30000;
               TrackRequestEnd (ofZ 50) true 62000 62000] initial) = [30000].
Proof.
  apply (errors_after_trackRequestEnd
           [TrackRequestEnd (ofZ 90) false 1000 1000;
            TrackRequestEnd (ofZ 70) false 30000 30000] (ofZ 50) true 62000 62000).
  repeat constructor; lia.
Defined.

(** ** Snapshot history *)

Lemma captureTimes_snoc (ops : list op) (o : op) :
  captureTimes (ops ++ [o])
  = captureTimes ops
    ++ match o with
       | CaptureSnapshot _ now | GetCurrentMetrics _ now => [now]
       | _ => []
       end.
Proof. unfold captureTimes. rewrite omap_app. f_equal. by destruct o. Qed.

Lemma captureSnapshot_timestamps (h : Host) (now : Z) (e : SelfPerformanceEngine) :
  (length (snapshots e) ≤ MAX_SNAPSHOTS)%nat →
  Snapshot.timestamp <$> snapshots (captureSnapshot h now e).2
  = mostRecent MAX_SNAPSHOTS ((Snapshot.timestamp <$> snapshots e) ++ [now]).
Proof.
  intros Hle. simpl.
  rewrite <- push_bounded_mostRecent by by rewrite length_fmap.
  rewrite !length_app, length_fmap. simpl.
  destruct (MAX_SNAPSHOTS <? _)%nat; [|by rewrite fmap_app].
  unfold shift. destruct (snapshots e); [done|]. simpl. by rewrite fmap_app.
Qed.

(** X4.  The snapshot history is a FIFO buffer of capacity 1000: after any
    sequence of operations the time stamps of the stored snapshots are the
    clock readings of the most recent 1000 captures (by [captureSnapshot]
    or [getCurrentMetrics]), oldest first. *)
Theorem snapshots_fifo (ops : list op) :
  Snapshot.timestamp <$> snapshots (run ops initial)
  = mostRecent 1000 (captureTimes ops).
Proof.
  induction ops as [|o ops IH] using rev_ind; [done|].
  assert (Hle : (length (snapshots (run ops initial)) ≤ MAX_SNAPSHOTS)%nat)
    by apply run_ok, initial_ok.
  rewrite run_snoc, captureTimes_snoc.
  destruct o as [| |model ok d at_|h now|h now|]; cbn [step]; rewrite ?app_nil_r;
    try done.
  - by destruct (trackModelCall_frame model ok d at_ (run ops initial)) as (-> & _).
  - rewrite captureSnapshot_timestamps, IH by done. apply mostRecent_app.
  - unfold getCurrentMetrics.
    rewrite captureSnapshot_timestamps, IH by done. apply mostRecent_app.
Qed.

(** ** Snapshot contents *)

Lemma ratio_all (n : nat) : (0 < n)%nat → (ratio n n == 1)%Q.
Proof.
  intros Hn. unfold ratio. apply Qmult_inv_r.
  intros Heq. unfold Qeq in Heq. simpl in Heq. lia.
Qed.

Lemma ratio_none (n : nat) : (ratio 0 n == 0)%Q.
Proof. unfold ratio. simpl. apply Qmult_0_l. Qed.

(** X5.  A snapshot taken after any sequence of operations that records
    no call under a name inherited from [Object.prototype] maps a provider
    to a success rate exactly when a call was recorded for it, and the rate
    is its number of successful calls over its number of calls: 1 when
    every call succeeded, 0 when none did. *)
Theorem snapshot_success_rates (ops : list op) (h : Host) (now : Z) (name : string) :
  forallb recordsOwnName ops = true →
  let snapshot := (captureSnapshot h now (run ops initial)).1 in
  let calls := callsTo name ops in
  (Snapshot.modelSuccessRates snapshot !! name = None ↔ calls = [])
  ∧ (∀ rate, Snapshot.modelSuccessRates snapshot !! name = Some rate →
       rate = ratio (length (succeeded calls)) (length calls)
       ∧ (succeeded calls = calls → rate == 1)%Q
       ∧ (succeeded calls = [] → rate == 0)%Q).
Proof.
  intros Hown snapshot calls. unfold snapshot. simpl.
  rewrite lookup_fmap, modelMetrics_run by done. fold calls. unfold entryOf.
  destruct (last calls) as [latest|] eqn:Hlast; simpl.
  - assert (Hpos : (0 < length calls)%nat).
    { destruct calls; [done | simpl; lia]. }
    split.
    + split; [done|]. intros Hnil. by rewrite Hnil in Hlast.
    + intros rate [= <-]. unfold successRate. simpl.
      replace (0 <? length calls)%nat with true by (symmetry; by apply Nat.ltb_lt).
      split; [done|]. split.
      * intros ->. by apply ratio_all.
      * intros ->. apply ratio_none.
  - apply last_None in Hlast. by split.
Qed.

(** Ten successful calls to "x" and two failed calls to "y": the snapshot
    has "x" at a rate equal to 1. *)
Lemma snapshot_success_rates_witness :
  ∃ rate,
    Snapshot.modelSuccessRates (captureSnapshot sampleHost 1 (run tenAndTwo initial)).1
      !! "x"%string = Some rate
    ∧ (rate == 1)%Q.
Proof.
  exists (ratio 10 10). split; [vm_compute; reflexivity|].
  apply (proj2 (snapshot_success_rates tenAndTwo sampleHost 1 "x"%string eq_refl)
           (ratio 10 10)).
  - vm_compute. reflexivity.
  - vm_compute. reflexivity.
Defined.

(** ** Host figures of a snapshot *)

Lemma inject_Z_nonzero (k : Z) : k ≠ 0 → Qeq_bool (inject_Z k) 0 = false.
Proof.
  intros Hk. destruct (Qeq_bool (inject_Z k) 0) eqn:Heq; [|done].
  apply Qeq_bool_eq in Heq. unfold Qeq in Heq. simpl in Heq. lia.
Qed.

Lemma ndiv_by_integer (a : Q) (k : Z) :
  k ≠ 0 → ndiv (Fin a) (ofZ k) = Fin (a / inject_Z k).
Proof. intros Hk. unfold ndiv, ofZ. by rewrite inject_Z_nonzero. Qed.

Lemma nmul_by_integer (a : Q) (k : Z) : nmul (Fin a) (ofZ k) = Fin (a * inject_Z k).
Proof. done. Qed.

Lemma nround_fin (a : Q) : nround (Fin a) = Fin (inject_Z (Qfloor (a + (1 # 2)))).
Proof. done. Qed.

Lemma nsub_fin (a b : Q) : nsub (Fin a) (Fin b) = Fin (a + - b).
Proof. done. Qed.

Lemma inject_Z_pos (k : Z) : 0 < k → (0 < inject_Z k)%Q.
Proof. intros Hk. change 0%Q with (inject_Z 0). by rewrite <- Zlt_Qlt. Qed.

Lemma inject_Z_nonneg (k : Z) : 0 ≤ k → (0 <= inject_Z k)%Q.
Proof. intros Hk. change 0%Q with (inject_Z 0). by rewrite <- Zle_Qle. Qed.

Lemma Qdiv_nonneg (a b : Q) : (0 <= a)%Q → (0 < b)%Q → (0 <= a / b)%Q.
Proof.
  intros Ha Hb. apply Qle_shift_div_l; [done|]. by rewrite Qmult_0_l.
Qed.

(** [Math.round] of a rational between two integers lies between them. *)
Lemma round_between (x : Q) (lo hi : Z) :
  (inject_Z lo <= x)%Q → (x <= inject_Z hi)%Q →
  lo ≤ Qfloor (x + (1 # 2)) ≤ hi.
Proof.
  intros Hlo Hhi. split.
  - rewrite <- (Qfloor_Z lo). apply Qfloor_resp_le. lra.
  - pose proof (Qfloor_le (x + (1 # 2))) as Hfloor.
    assert (Hlt : (inject_Z (Qfloor (x + (1 # 2))) < inject_Z (hi + 1))%Q).
    { rewrite inject_Z_plus. change (inject_Z 1) with 1%Q. lra. }
    rewrite <- Zlt_Qlt in Hlt. lia.
Qed.

Lemma cpuBusyPct_bounds (c : CpuTimes) :
  (0 < cpuTotal c)%N →
  ∃ q, cpuBusyPct c = Fin q ∧ (0 <= q)%Q ∧ (q <= 100)%Q.
Proof.
  intros Hpos. unfold cpuBusyPct, ofN. unfold ofZ at 1 2. rewrite nsub_fin.
  rewrite ndiv_by_integer by lia. rewrite nmul_by_integer. eexists. split; [reflexivity|].
  set (t := inject_Z (Z.of_N (cpuTotal c))).
  set (i := inject_Z (Z.of_N (idle c))).
  assert (Ht : (0 < t)%Q) by (apply inject_Z_pos; lia).
  assert (Hi : (0 <= i)%Q) by (apply inject_Z_nonneg; lia).
  assert (Hit : (i <= t)%Q).
  { unfold i, t. rewrite <- Zle_Qle. unfold cpuTotal. lia. }
  assert (Hfrac : (0 <= (t + - i) / t)%Q ∧ ((t + - i) / t <= 1)%Q).
  { split.
    - apply Qdiv_nonneg; [lra | done].
    - apply Qle_shift_div_r; [done | lra]. }
  change (inject_Z 100) with 100%Q. lra.
Qed.

Lemma cpu_sum_bounds (cs : list CpuTimes) (a : Q) :
  Forall (λ c, (0 < cpuTotal c)%N) cs →
  ∃ s, fold_left (λ acc cpu, nadd acc (cpuBusyPct cpu)) cs (Fin a) = Fin s
       ∧ (a <= s)%Q ∧ (s <= a + 100 * inject_Z (Z.of_nat (length cs)))%Q.
Proof.
  intros Hcs. revert a. induction Hcs as [|c cs Hc Hcs IH]; intros a.
  - exists a. split; [done|].
    change (inject_Z (Z.of_nat (length (@nil CpuTimes)))) with 0%Q. split; lra.
  - destruct (cpuBusyPct_bounds c Hc) as (q & Hq & Hq0 & Hq100).
    simpl fold_left. rewrite Hq. simpl nadd.
    destruct (IH (a + q)%Q) as (s & Hs & Hlow & Hhigh).
    exists s. split; [done|]. split; [lra|].
    rewrite length_cons, Nat2Z.inj_succ. unfold Z.succ. rewrite inject_Z_plus.
    change (inject_Z 1) with 1%Q. lra.
Qed.

(** X6.  On a host that reports at least one CPU, each with a positive
    total time, the CPU usage of a snapshot is a finite number of tenths
    between 0 and 100. *)
Theorem cpuUsage_well_formed (h : Host) (now : Z) (e : SelfPerformanceEngine) :
  cpus h ≠ [] → Forall (λ c, (0 < cpuTotal c)%N) (cpus h) →
  ∃ tenths : Z,
    Snapshot.cpuUsage (captureSnapshot h now e).1 = Fin (inject_Z tenths / inject_Z 10)
    ∧ 0 ≤ tenths ≤ 1000.
Proof.
  intros Hne Hcs. simpl. unfold cpuUsageOf, ofZ at 1.
  destruct (cpu_sum_bounds (cpus h) (inject_Z 0) Hcs) as (s & -> & Hlow & Hhigh).
  assert (Hlen : (0 < length (cpus h))%nat) by (destruct (cpus h); [done | simpl; lia]).
  unfold ofnat. rewrite ndiv_by_integer by lia.
  rewrite nmul_by_integer, nround_fin, ndiv_by_integer by done. eexists. split; [reflexivity|].
  set (n := inject_Z (Z.of_nat (length (cpus h)))) in *.
  assert (Hn : (0 < n)%Q) by (apply inject_Z_pos; lia).
  change (inject_Z 0) with 0%Q in *.
  assert (Havg : (0 <= s / n)%Q ∧ (s / n <= 100)%Q).
  { split; [by apply Qdiv_nonneg|]. apply Qle_shift_div_r; [done | lra]. }
  apply round_between.
  - change (inject_Z 0) with 0%Q. change (inject_Z 10) with 10%Q. lra.
  - change (inject_Z 1000) with 1000%Q. change (inject_Z 10) with 10%Q. lra.
Qed.

(** The sample host, busy three quarters of the time, is at 75.0. *)
Lemma cpuUsage_well_formed_witness :
  ∃ tenths : Z,
    Snapshot.cpuUsage (captureSnapshot sampleHost 0 initial).1
    = Fin (inject_Z tenths / inject_Z 10)
    ∧ 0 ≤ tenths ≤ 1000.
Proof.
  apply (cpuUsage_well_formed sampleHost 0 initial).
  - discriminate.
  - repeat constructor.
Defined.

(** X7.  The memory figures of a snapshot are always finite whole numbers
    of megabytes; the total is not negative, the used memory never exceeds
    the total, and it is not negative when the host reports no more free
    memory than total memory. *)
Theorem memory_well_formed (h : Host) (now : Z) (e : SelfPerformanceEngine) :
  ∃ used total : Z,
    Snapshot.memoryUsedMB (captureSnapshot h now e).1 = Fin (inject_Z used)
    ∧ Snapshot.memoryTotalMB (captureSnapshot h now e).1 = Fin (inject_Z total)
    ∧ used ≤ total ∧ 0 ≤ total
    ∧ ((freemem h ≤ totalmem h)%N → 0 ≤ used).
Proof.
  unfold captureSnapshot, makeSnapshot.
  cbn [fst Snapshot.memoryUsedMB Snapshot.memoryTotalMB].
  unfold MB, ofN. unfold ofZ at 1 3 5. rewrite !ndiv_by_integer by done.
  rewrite nsub_fin, !nround_fin. do 2 eexists. split; [reflexivity|]. split; [reflexivity|].
  set (t := (inject_Z (Z.of_N (totalmem h)) / inject_Z (1024 * 1024))%Q).
  set (f := (inject_Z (Z.of_N (freemem h)) / inject_Z (1024 * 1024))%Q).
  assert (Hmb : (0 < inject_Z (1024 * 1024))%Q) by by apply inject_Z_pos.
  assert (Ht : (0 <= t)%Q) by (apply Qdiv_nonneg; [apply inject_Z_nonneg; lia | done]).
  assert (Hf : (0 <= f)%Q) by (apply Qdiv_nonneg; [apply inject_Z_nonneg; lia | done]).
  split; [apply Qfloor_resp_le; lra|]. split.
  - rewrite <- (Qfloor_Z 0). apply Qfloor_resp_le. change (inject_Z 0) with 0%Q. lra.
  - intros Hle. rewrite <- (Qfloor_Z 0). apply Qfloor_resp_le.
    change (inject_Z 0) with 0%Q.
    assert (Hft : (f <= t)%Q).
    { unfold f, t. apply Qmult_le_compat_r.
      - rewrite <- Zle_Qle. lia.
      - apply Qinv_le_0_compat. lra. }
    lra.
Qed.

(** The sample host: 6144 MB used of 8192 MB. *)
Lemma memory_well_formed_witness :
  ∃ used total : Z,
    Snapshot.memoryUsedMB (captureSnapshot sampleHost 0 initial).1 = Fin (inject_Z used)
    ∧ Snapshot.memoryTotalMB (captureSnapshot sampleHost 0 initial).1 = Fin (inject_Z total)
    ∧ used ≤ total ∧ 0 ≤ used.
Proof.
  destruct (memory_well_formed sampleHost 0 initial)
    as (used & total & Hused & Htotal & Hle & _ & Hnonneg).
  exists used, total. repeat split; try done. apply Hnonneg. vm_compute. discriminate.
Defined.

(** ** Monitoring life cycle *)

Lemma timerFires_monitorInterval (handle : nat) (h : Host) (now : Z)
    (w : SelfPerformanceEngine * runtime) :
  monitorInterval (timerFires handle h now w).2.1 = monitorInterval w.1
  ∧ (timerFires handle h now w).2.2 = w.2.
Proof. unfold timerFires. by destruct (bool_decide _). Qed.

Lemma keepsTimers_step (w : SelfPerformanceEngine * runtime) (ev : event) :
  keepsTimers ev = true →
  monitorInterval (eventStep w ev).1 = monitorInterval w.1
  ∧ (eventStep w ev).2 = w.2.
Proof.
  destruct ev as [o| | |handle h now]; simpl; try done; intros _.
  - by rewrite step_monitorInterval.
  - apply timerFires_monitorInterval.
Qed.

Lemma keepsTimers_run (evs : list event) (w : SelfPerformanceEngine * runtime) :
  Forall (λ ev, keepsTimers ev = true) evs →
  monitorInterval (fold_left eventStep evs w).1 = monitorInterval w.1
  ∧ (fold_left eventStep evs w).2 = w.2.
Proof.
  intros Hevs. revert w. induction Hevs as [|ev evs Hev Hevs IH]; intros w; [done|].
  simpl. destruct (IH (eventStep w ev)) as [-> ->]. by apply keepsTimers_step.
Qed.

(** X8.  One start and one stop, as the server does at start-up and at
    shutdown, leak no timer: when the handle [setInterval] hands out is
    fresh, the timer is scheduled while method calls and timer expiries go
    on, and [stopMonitoring] then restores the timers of the process,
    clears the stored handle and keeps the snapshot history; a later expiry
    of the cleared handle samples nothing. *)
Theorem monitoring_start_stop (e : SelfPerformanceEngine) (rt : runtime)
    (evs : list event) :
  nextTimer rt ∉ timers rt → Forall (λ ev, keepsTimers ev = true) evs →
  let running := fold_left eventStep evs (startMonitoring (e, rt)) in
  let stopped := stopMonitoring running in
  nextTimer rt ∈ timers running.2
  ∧ timers stopped.2 = timers rt
  ∧ monitorInterval stopped.1 = None
  ∧ snapshots stopped.1 = snapshots running.1
  ∧ ∀ h now, timerFires (nextTimer rt) h now stopped = ([], stopped).
Proof.
  intros Hfresh Hevs running stopped.
  destruct (keepsTimers_run evs (startMonitoring (e, rt)) Hevs) as [Hheld Hrt].
  fold running in Hheld, Hrt. simpl in Hheld, Hrt.
  assert (Hstopped : stopped
    = (setMonitorInterval None running.1, clearInterval (nextTimer rt) running.2)).
  { unfold stopped, stopMonitoring. by rewrite Hheld. }
  assert (Htimers : timers stopped.2 = timers rt).
  { rewrite Hstopped, Hrt. simpl. apply set_eq. intros x.
    rewrite elem_of_difference, elem_of_union, elem_of_singleton.
    split; [by intros [[?|?] ?] | intros Hx; split; [by right | congruence]]. }
  split; [rewrite Hrt; simpl; apply elem_of_union_l; by apply elem_of_singleton|].
  split; [done|].
  split; [by rewrite Hstopped|]. split; [by rewrite Hstopped|].
  intros h now. unfold timerFires. rewrite Htimers.
  by rewrite bool_decide_eq_false_2.
Qed.

(** The server's life cycle on a process without timers: a start, two
    expiries of the timer, a stop. *)
Lemma monitoring_start_stop_witness :
  let rt := {| timers := ∅; nextTimer := 0 |} in
  let running :=
    fold_left eventStep [TimerExpires 0 sampleHost 10000; TimerExpires 0 sampleHost 20000]
              (startMonitoring (initial, rt)) in
  timers (stopMonitoring running).2 = ∅
  ∧ length (snapshots (stopMonitoring running).1) = 2%nat.
Proof.
  intros rt running.
  destruct (monitoring_start_stop initial rt
              [TimerExpires 0 sampleHost 10000; TimerExpires 0 sampleHost 20000])
    as (_ & Htimers & _ & Hhistory & _).
  - simpl. set_solver.
  - by repeat constructor.
  - split; [exact Htimers|]. fold running in Hhistory. rewrite Hhistory.
    vm_compute. reflexivity.
Defined.

(** X9.  [stopMonitoring] is idempotent, does nothing on an engine that
    holds no handle, never touches the history, the metrics or the windows,
    and clears no timer but the one whose handle the engine holds. *)
Theorem stopMonitoring_safe (w : SelfPerformanceEngine * runtime) :
  let w' := stopMonitoring w in
  stopMonitoring w' = w'
  ∧ (monitorInterval w.1 = None → w' = w)
  ∧ monitorInterval w'.1 = None
  ∧ (snapshots w'.1 = snapshots w.1 ∧ modelMetrics w'.1 = modelMetrics w.1
     ∧ activeRequests w'.1 = activeRequests w.1
     ∧ responseTimes w'.1 = responseTimes w.1 ∧ errors w'.1 = errors w.1)
  ∧ ∀ handle, handle ∈ timers w.2 → monitorInterval w.1 ≠ Some handle →
      handle ∈ timers w'.2.
Proof.
  destruct w as [e rt]. unfold stopMonitoring. simpl.
  destruct (monitorInterval e) as [held|] eqn:Hheld; simpl.
  - split; [done|]. split; [done|]. split; [done|]. split; [done|].
    intros handle Hin Hne. apply elem_of_difference. split; [done|].
    rewrite elem_of_singleton. congruence.
  - rewrite Hheld. by repeat split.
Qed.

(** A stop on an engine that was never started changes nothing. *)
Lemma stopMonitoring_safe_witness :
  stopMonitoring (initial, {| timers := {[7%nat]}; nextTimer := 8 |})
  = (initial, {| timers := {[7%nat]}; nextTimer := 8 |}).
Proof.
  apply (stopMonitoring_safe (initial, {| timers := {[7%nat]}; nextTimer := 8 |})).
  reflexivity.
Defined.

(** ** Routing under further calls *)

Lemma sort_insert_elem {A} (cmp : A → A → Q) (x y : A) (l : list A) :
  y ∈ sort_insert cmp x l ↔ y = x ∨ y ∈ l.
Proof.
  induction l as [|z l IH]; simpl.
  - rewrite list_elem_of_singleton, elem_of_nil. tauto.
  - destruct (Qle_bool (cmp x z) 0).
    + by rewrite elem_of_cons.
    + rewrite !elem_of_cons, IH. tauto.
Qed.

Lemma sort_elem {A} (cmp : A → A → Q) (y : A) (l : list A) :
  y ∈ sort cmp l ↔ y ∈ l.
Proof.
  induction l as [|x l IH]; simpl; [done|].
  rewrite sort_insert_elem, elem_of_cons. tauto.
Qed.

Lemma sort_insert_ext {A} (cmp1 cmp2 : A → A → Q) (x : A) (l : list A) :
  (∀ y, y ∈ l → cmp1 x y = cmp2 x y) →
  sort_insert cmp1 x l = sort_insert cmp2 x l.
Proof.
  induction l as [|z l IH]; intros Hext; simpl; [done|].
  rewrite <- (Hext z) by left.
  destruct (Qle_bool (cmp1 x z) 0); [done|].
  f_equal. apply IH. intros y Hy. apply Hext. by right.
Qed.

(** Sorting only consults the comparator on the elements of the array. *)
Lemma sort_ext {A} (cmp1 cmp2 : A → A → Q) (l : list A) :
  (∀ x y, x ∈ l → y ∈ l → cmp1 x y = cmp2 x y) →
  sort cmp1 l = sort cmp2 l.
Proof.
  induction l as [|x l IH]; intros Hext; simpl; [done|].
  rewrite IH by (intros a b Ha Hb; apply Hext; by right).
  apply sort_insert_ext. intros y Hy. apply sort_elem in Hy.
  apply Hext; [by left | by right].
Qed.

(** [getBestModel] reads nothing but the entries of its candidates. *)
Lemma getBestModel_ext (t : taskType) (e e' : SelfPerformanceEngine) :
  (∀ model, model ∈ modelsByTask t → modelMetrics e' !! model = modelMetrics e !! model) →
  getBestModel t e' = getBestModel t e.
Proof.
  intros Hsame. unfold getBestModel.
  assert (Hfilter : List.filter (hasMetrics e') (modelsByTask t)
                    = List.filter (hasMetrics e) (modelsByTask t)).
  { apply List.filter_ext_in. intros model Hin. apply list_elem_of_In in Hin.
    unfold hasMetrics. by rewrite Hsame. }
  rewrite Hfilter.
  rewrite (sort_ext (byRateDesc e') (byRateDesc e)); [done|].
  intros a b Ha Hb.
  apply list_elem_of_In, filter_In in Ha as [Ha _].
  apply list_elem_of_In, filter_In in Hb as [Hb _].
  apply list_elem_of_In in Ha, Hb.
  unfold byRateDesc, rateOf. by rewrite !Hsame.
Qed.

Lemma sparesCategory_step (t : taskType) (o : op) (e : SelfPerformanceEngine)
    (model : string) :
  sparesCategory t o → model ∈ modelsByTask t →
  modelMetrics (step e o) !! model = modelMetrics e !! model.
Proof.
  intros Hspare Hin. destruct o as [| |called ok d now| | |]; simpl; try done.
  simpl in Hspare.
  destruct (trackModelCall_cases called ok d now e) as [-> | ->]; [done|].
  apply lookup_insert_ne. by intros ->.
Qed.

(** X10.  The provider chosen for a category depends on nothing but the
    calls recorded for that category's candidates: request tracking,
    snapshots, history reads and calls recorded for any other provider,
    in any number and order, leave the choice unchanged. *)
Theorem getBestModel_frame (t : taskType) (ops : list op) (e : SelfPerformanceEngine) :
  Forall (sparesCategory t) ops →
  getBestModel t (run ops e) = getBestModel t e.
Proof.
  intros Hops. revert e. induction Hops as [|o ops Ho Hops IH]; intros e; [done|].
  change (run (o :: ops) e) with (run ops (step e o)). rewrite IH.
  apply getBestModel_ext. intros model Hin. by apply (sparesCategory_step t).
Qed.

(** Calls for image providers and a finished request leave the video
    choice at "veo-3". *)
Lemma getBestModel_frame_witness :
  getBestModel Video
    (run [TrackModelCall "sdxl" true (ofZ 300) 11; TrackRequestStart;
          TrackRequestEnd (ofZ 300) true 12 12; CaptureSnapshot sampleHost 13]
         (run fourOfFive_twoOfFive initial))
  = getBestModel Video (run fourOfFive_twoOfFive initial).
Proof.
  apply (getBestModel_frame Video).
  repeat constructor. simpl. intros Hin.
  repeat (apply elem_of_cons in Hin as [Heq|Hin]; [discriminate Heq|]).
  by apply elem_of_nil in Hin.
Defined.

Lemma ratio_le (a b c d : nat) :
  (0 < b)%nat → (0 < d)%nat → (a * d ≤ c * b)%nat → (ratio a b <= ratio c d)%Q.
Proof.
  intros Hb Hd Hcross. unfold ratio.
  assert (Hb' : (0 < inject_Z (Z.of_nat b))%Q) by (apply inject_Z_pos; lia).
  assert (Hd' : (0 < inject_Z (Z.of_nat d))%Q) by (apply inject_Z_pos; lia).
  apply Qle_shift_div_r; [done|].
  assert (Hswap : (inject_Z (Z.of_nat c) / inject_Z (Z.of_nat d) * inject_Z (Z.of_nat b)
                   == inject_Z (Z.of_nat c) * inject_Z (Z.of_nat b) / inject_Z (Z.of_nat d))%Q).
  { field. intros Hzero. rewrite Hzero in Hd'. by apply Qlt_irrefl in Hd'. }
  rewrite Hswap. apply Qle_shift_div_l; [done|].
  rewrite <- !inject_Z_mult, <- Zle_Qle. lia.
Qed.

(** A recorded success never lowers the rate the sort reads. *)
Lemma rateOf_success_mono (e : SelfPerformanceEngine) (b : string) (d : num) (now : Z) :
  engineOk e → (rateOf e b <= rateOf (trackModelCall b true d now e) b)%Q.
Proof.
  intros He.
  destruct (trackModelCall_cases b true d now e) as [-> | ->]; [apply Qle_refl|].
  unfold rateOf. simpl. rewrite lookup_insert_eq.
  destruct (modelMetrics e !! b) as [m|] eqn:Hm; simpl.
  - destruct (ok_metrics e He b m Hm) as [Hcalls Hsucc].
    unfold sortRate. simpl. destruct (totalCalls m) as [|n] eqn:Hn; [lia|].
    simpl. apply ratio_le; lia.
  - discriminate.
Qed.

Lemma candidates_not_inherited (t : taskType) (model : string) :
  model ∈ modelsByTask t → inherited model = false.
Proof.
  intros Hin. destruct t; simpl in Hin;
    repeat (apply elem_of_cons in Hin as [->|Hin]; [by vm_compute|]);
    by apply elem_of_nil in Hin.
Qed.

Lemma leads_unique {A} (r : A → Q) (P : A → bool) (l : list A) (b b' : A) (i i' : nat) :
  leads r P l b i → leads r P l b' i' → b = b'.
Proof.
  intros (Hi & HP & Hmax & Hfirst) (Hi' & HP' & Hmax' & Hfirst').
  destruct (Nat.lt_trichotomy i i') as [Hlt|[->|Hlt]].
  - specialize (Hfirst' i b Hi HP Hlt). specialize (Hmax i' b' Hi' HP').
    by apply Qlt_not_le in Hfirst'.
  - congruence.
  - specialize (Hfirst i' b' Hi' HP' Hlt). specialize (Hmax' i b Hi HP).
    by apply Qlt_not_le in Hfirst.
Qed.

(** What [getBestModel] returns, in terms of [leads]. *)
Lemma getBestModel_leads (t : taskType) (e : SelfPerformanceEngine) :
  (∃ b i, getBestModel t e = Some b
          ∧ leads (rateOf e) (hasMetrics e) (modelsByTask t) b i)
  ∨ (∃ b, getBestModel t e = Some b ∧ modelsByTask t !! 0%nat = Some b
          ∧ ∀ model, model ∈ modelsByTask t → hasMetrics e model = false).
Proof.
  unfold getBestModel.
  pose proof (head_sort_filter (rateOf e) (hasMetrics e) (modelsByTask t)) as Hhead.
  change (descending (rateOf e)) with (byRateDesc e) in Hhead.
  destruct (head (sort (byRateDesc e) (List.filter (hasMetrics e) (modelsByTask t))))
    as [best|].
  - left. destruct Hhead as (i & Hi & Hrest). exists best, i.
    rewrite (candidate_names_truthy t best) by by eapply list_elem_of_lookup_2.
    by split.
  - right. assert (∃ first, head (modelsByTask t) = Some first) as [first Hfirst]
      by (destruct t; simpl; eauto).
    exists first. rewrite Hfirst. split; [done|]. split; [|done].
    by rewrite <- head_lookup.
Qed.

(** X11.  A recorded success never costs a provider the first place: when
    [getBestModel] returns a provider in a reachable state, it returns the
    same provider after one more successful call of that provider is
    recorded. *)
Theorem success_keeps_best (ops : list op) (t : taskType) (b : string)
    (d : num) (now : Z) :
  getBestModel t (run ops initial) = Some b →
  getBestModel t (run (ops ++ [TrackModelCall b true d now]) initial) = Some b.
Proof.
  intros Hbest. rewrite run_snoc. simpl step.
  set (e := run ops initial) in *. set (e' := trackModelCall b true d now e).
  assert (He : engineOk e) by apply run_ok, initial_ok.
  assert (Hcand : b ∈ modelsByTask t).
  { destruct (getBestModel_leads t e) as [(b0 & i & Hb0 & Hi & _)|(b0 & Hb0 & Hi & _)];
      rewrite Hbest in Hb0; injection Hb0 as <-; by eapply list_elem_of_lookup_2. }
  assert (He' : e' = recordOwn b true d now e)
    by (apply trackModelCall_own; by eapply candidates_not_inherited).
  assert (Hhas : hasMetrics e' b = true).
  { unfold hasMetrics. rewrite He'. simpl. rewrite lookup_insert_eq.
    by apply bool_decide_eq_true_2. }
  assert (Hother : ∀ y, y ≠ b →
            hasMetrics e' y = hasMetrics e y ∧ rateOf e' y = rateOf e y).
  { intros y Hy. unfold hasMetrics, rateOf. rewrite He'. simpl.
    by rewrite lookup_insert_ne by done. }
  assert (Hmono : (rateOf e b <= rateOf e' b)%Q) by by apply rateOf_success_mono.
  assert (Hleads : ∃ i, leads (rateOf e') (hasMetrics e') (modelsByTask t) b i).
  { destruct (getBestModel_leads t e) as [(b0 & i & Hb0 & Hi & HP & Hmax & Hfirst)
                                         |(b0 & Hb0 & Hzero & Hnone)];
      rewrite Hbest in Hb0; injection Hb0 as <-.
    - exists i. split; [done|]. split; [done|]. split.
      + intros j y Hj HPy. destruct (decide (y = b)) as [->|Hy]; [apply Qle_refl|].
        destruct (Hother y Hy) as [Hhasy ->]. rewrite Hhasy in HPy.
        specialize (Hmax j y Hj HPy). lra.
      + intros j y Hj HPy Hlt. destruct (decide (y = b)) as [->|Hy].
        * specialize (Hfirst j b Hj HP Hlt). by apply Qlt_irrefl in Hfirst.
        * destruct (Hother y Hy) as [Hhasy ->]. rewrite Hhasy in HPy.
          specialize (Hfirst j y Hj HPy Hlt). lra.
    - exists 0%nat. split; [done|]. split; [done|]. split.
      + intros j y Hj HPy. destruct (decide (y = b)) as [->|Hy]; [apply Qle_refl|].
        destruct (Hother y Hy) as [Hhasy _]. rewrite Hhasy in HPy.
        apply list_elem_of_lookup_2 in Hj. by rewrite (Hnone y Hj) in HPy.
      + intros j y _ _ Hlt. lia. }
  destruct Hleads as [i Hleads].
  destruct (getBestModel_leads t e') as [(b' & i' & Hb' & Hleads')
                                        |(b' & _ & Hzero & Hnone)].
  - rewrite Hb'. f_equal. by eapply leads_unique.
  - destruct Hleads as (Hi & _). apply list_elem_of_lookup_2 in Hi.
    by rewrite (Hnone b Hi) in Hhas.
Qed.

(** "veo-3" is chosen for video and stays chosen after one more success. *)
Lemma success_keeps_best_witness :
  getBestModel Video
    (run (fourOfFive_twoOfFive ++ [TrackModelCall "veo-3" true (ofZ 150) 11]) initial)
  = Some "veo-3"%string.
Proof.
  apply (success_keeps_best fourOfFive_twoOfFive Video "veo-3" (ofZ 150) 11).
  vm_compute. reflexivity.
Defined.

(** X12.  Untried candidates rank below every tried one: when no
    candidate of a category has a recorded call, the first call recorded
    for one of its candidates makes that candidate the choice, whether the
    call succeeded or failed, and whatever its place in the static list. *)
Theorem first_call_takes_over (ops : list op) (t : taskType) (model : string)
    (ok : bool) (d : num) (now : Z) :
  model ∈ modelsByTask t →
  (∀ other, other ∈ modelsByTask t → callsOf (run ops initial) other = 0%nat) →
  getBestModel t (run (ops ++ [TrackModelCall model ok d now]) initial) = Some model.
Proof.
  intros Hin Hnone. rewrite run_snoc. simpl step.
  set (e := run ops initial) in *. set (e' := trackModelCall model ok d now e).
  assert (He : engineOk e) by apply run_ok, initial_ok.
  assert (He' : e' = recordOwn model ok d now e)
    by (apply trackModelCall_own; by eapply candidates_not_inherited).
  assert (Hhas : hasMetrics e' model = true).
  { unfold hasMetrics. rewrite He'. simpl. rewrite lookup_insert_eq.
    by apply bool_decide_eq_true_2. }
  assert (Honly : ∀ y, y ∈ modelsByTask t → hasMetrics e' y = true → y = model).
  { intros y Hy Hhasy. destruct (decide (y = model)) as [|Hne]; [done|].
    unfold hasMetrics in Hhasy. rewrite He' in Hhasy. simpl in Hhasy.
    rewrite lookup_insert_ne in Hhasy by done.
    apply (hasMetrics_calls e y He) in Hhasy. specialize (Hnone y Hy). lia. }
  destruct (getBestModel_leads t e') as [(b & i & Hb & Hi & HP & _)
                                        |(b & _ & _ & Hnobody)].
  - rewrite Hb. f_equal. apply Honly; [by eapply list_elem_of_lookup_2 | done].
  - by rewrite (Hnobody model Hin) in Hhas.
Qed.

(** On the fresh engine one failed call to "whisper", the last voice
    candidate, makes it the voice choice. *)
Lemma first_call_takes_over_witness :
  getBestModel Voice (run ([] ++ [TrackModelCall "whisper" false (ofZ 900) 3]) initial)
  = Some "whisper"%string.
Proof.
  apply (first_call_takes_over [] Voice "whisper" false (ofZ 900) 3).
  - apply list_elem_of_In. simpl. tauto.
  - intros other _. reflexivity.
Defined.

(** ** Alerting on errors *)

Lemma nsum_counts_from (counts : list nat) (q0 : Q) (a : Z) :
  (q0 == inject_Z a)%Q →
  ∃ q, fold_left nadd (ofnat <$> counts) (Fin q0) = Fin q
       ∧ (q == inject_Z (a + Z.of_nat (sum_list counts)))%Q.
Proof.
  revert q0 a. induction counts as [|c counts IH]; intros q0 a Hq0.
  - exists q0. split; [done|]. simpl. by rewrite Z.add_0_r.
  - simpl fold_left. unfold ofnat at 1, ofZ at 1. simpl nadd.
    destruct (IH (q0 + inject_Z (Z.of_nat c))%Q (a + Z.of_nat c)) as (q & Hq & Heq).
    { by rewrite Hq0, inject_Z_plus. }
    exists q. split; [done|]. rewrite Heq. simpl sum_list.
    by rewrite Nat2Z.inj_add, Z.add_assoc.
Qed.

Lemma sum_list_bounded (counts : list nat) (bound : nat) :
  Forall (λ c, (c ≤ bound)%nat) counts →
  (sum_list counts ≤ bound * length counts)%nat.
Proof.
  induction 1 as [|c counts Hc Hcounts IH]; simpl; lia.
Qed.

(** X13.  The error warning needs errors: when the alerting step emits
    it, at least one of the most recent 6 snapshots reports 6 or more
    errors. *)
Theorem highErrorRate_needs_errors (e : SelfPerformanceEngine) (x : num) :
  HighErrorRate x ∈ analyseAndAdapt e →
  ∃ snapshot, snapshot ∈ mostRecent 6 (snapshots e)
              ∧ (6 ≤ Snapshot.errorRate snapshot)%nat.
Proof.
  intros Hin.
  destruct (decide (length (snapshots e) < 3)%nat) as [Hcold|Hwarm].
  { rewrite (analyseAndAdapt_cold e Hcold) in Hin. by apply elem_of_nil in Hin. }
  destruct (analyseAndAdapt_warm e ltac:(lia)) as (latest & _ & Heq).
  cbv zeta in Heq. rewrite Heq in Hin. clear Heq.
  set (recent := mostRecent 6 (snapshots e)) in *.
  assert (Hlen : (0 < length recent)%nat).
  { unfold recent. rewrite mostRecent_length. lia. }
  assert (Hgt : ngt (ndiv (nsum ((λ s, ofnat (Snapshot.errorRate s)) <$> recent))
                          (ofnat (length recent))) (ofZ 5) = true).
  { rewrite !elem_of_app in Hin.
    destruct (ngt (ndiv (nsum ((λ s, ofnat (Snapshot.errorRate s)) <$> recent))
                        (ofnat (length recent))) (ofZ 5)); [done|].
    repeat match type of Hin with
           | context [if ?c then _ else _] => destruct c
           end;
      rewrite ?list_elem_of_singleton, ?elem_of_nil in Hin;
      destruct_or?; done. }
  destruct (decide (Forall (λ s, (Snapshot.errorRate s ≤ 5)%nat) recent))
    as [Hquiet|Hloud].
  - exfalso.
    assert (Hfmap : (λ s, ofnat (Snapshot.errorRate s)) <$> recent
                    = ofnat <$> (Snapshot.errorRate <$> recent))
      by by rewrite <- list_fmap_compose.
    rewrite Hfmap in Hgt. unfold nsum in Hgt.
    destruct (nsum_counts_from (Snapshot.errorRate <$> recent) 0 0) as (q & Hq & Hsum);
      [done|].
    rewrite Hq in Hgt.
    unfold ofnat in Hgt. rewrite ndiv_by_integer in Hgt by lia.
    simpl in Hgt. apply Qltb_lt in Hgt.
    assert (Hbound : (sum_list (Snapshot.errorRate <$> recent) ≤ 5 * length recent)%nat).
    { rewrite <- (length_fmap Snapshot.errorRate). apply sum_list_bounded.
      by apply Forall_fmap. }
    assert (Hn : (0 < inject_Z (Z.of_nat (length recent)))%Q)
      by (apply inject_Z_pos; lia).
    apply Qlt_not_le in Hgt. apply Hgt.
    apply Qle_shift_div_r; [done|]. rewrite Hsum.
    change 5%Q with (inject_Z 5). rewrite <- inject_Z_mult, <- Zle_Qle. lia.
  - apply not_Forall_Exists in Hloud; [|apply _].
    apply Exists_exists in Hloud as (snapshot & Hin' & Hmany).
    exists snapshot. split; [done | simpl in Hmany; lia].
Qed.

(** The warning of six failed requests. *)
Lemma highErrorRate_needs_errors_witness :
  ∃ snapshot, snapshot ∈ mostRecent 6 (snapshots sixFailedRequests)
              ∧ (6 ≤ Snapshot.errorRate snapshot)%nat.
Proof.
  destruct (analyseAndAdapt sixFailedRequests) as [|w ws] eqn:Hout;
    [vm_compute in Hout; discriminate|].
  assert (Hw : ∃ x, w = HighErrorRate x).
  { vm_compute in Hout. injection Hout as <- _. eauto. }
  destruct Hw as [x ->].
  apply (highErrorRate_needs_errors sixFailedRequests x).
  rewrite Hout. left.
Defined.

(** * Properties of the error handler *)

Ltac errorHandler_cases err :=
  unfold errorHandler;
  destruct (String.eqb (AppError.name err) "ValidationError") eqn:Hcase1;
  [|destruct (String.eqb (AppError.name err) "UnauthorizedError" || (statusOr500 err =? 401))
      eqn:Hcase2;
    [|destruct (String.eqb (AppError.name err) "RateLimitError" || (statusOr500 err =? 429))
        eqn:Hcase3;
      [|destruct (codeIs err "AI_MODEL_ERROR" || codeIs err "GENERATION_FAILED") eqn:Hcase4]]];
  cbn [snd fst ErrorResponse.status ErrorResponse.success ErrorResponse.error
       ErrorResponse.timestamp withCode withRetryAfter withFallback
       ErrorBody.message ErrorBody.code ErrorBody.statusCode ErrorBody.stack
       ErrorBody.retryAfter ErrorBody.retryable ErrorBody.fallbackAvailable].

(** X14.  Whatever the error, the response is marked unsuccessful and
    discloses no more than intended: the message of an error flagged as not
    operational is replaced by "Internal server error" (any other error is
    reported with its own message), and the stack trace is left out unless
    NODE_ENV is "development". *)
Theorem errorHandler_discloses (nodeEnv : option string) (now : string)
    (err : AppError.t) :
  let response := (errorHandler nodeEnv now err).2 in
  ErrorResponse.success response = false
  ∧ (AppError.isOperational err = Some false →
     ErrorBody.message (ErrorResponse.error response) = "Internal server error"%string)
  ∧ (AppError.isOperational err ≠ Some false →
     ErrorBody.message (ErrorResponse.error response) = AppError.message err)
  ∧ (nodeEnv ≠ Some "development"%string →
     ErrorBody.stack (ErrorResponse.error response) = None).
Proof.
  intros response. unfold response.
  assert (Hhidden : AppError.isOperational err = Some false → operational err = false)
    by (unfold operational; by intros ->).
  assert (Hshown : AppError.isOperational err ≠ Some false → operational err = true)
    by (unfold operational; by destruct (AppError.isOperational err) as [[]|]).
  errorHandler_cases err.
  all: split; [done|]; split; [by intros ->%Hhidden|]; split; [by intros ->%Hshown|].
  all: intros Henv; by rewrite bool_decide_eq_false_2.
Qed.

(** A crash in production: the client sees neither the message nor the
    stack. *)
Lemma errorHandler_discloses_witness :
  let response := (errorHandler (Some "production"%string) "2024-01-01T00:00:00.000Z" crashed).2 in
  ErrorBody.message (ErrorResponse.error response) = "Internal server error"%string
  ∧ ErrorBody.stack (ErrorResponse.error response) = None.
Proof.
  intros response.
  destruct (errorHandler_discloses (Some "production"%string)
              "2024-01-01T00:00:00.000Z" crashed) as (_ & Hmessage & _ & Hstack).
  split; [by apply Hmessage | by apply Hstack].
Defined.

(** X15.  For an error that is none of the kinds the handler knows by
    name and carries no AI failure code, the HTTP status is the error's own
    status code, 500 when it has none or has 0, and the body reports the
    same status code. *)
Theorem errorHandler_own_status (nodeEnv : option string) (now : string)
    (err : AppError.t) :
  namedKind err = false → aiFailure err = false →
  let response := (errorHandler nodeEnv now err).2 in
  ErrorResponse.status response = statusOr500 err
  ∧ ErrorBody.statusCode (ErrorResponse.error response) = statusOr500 err.
Proof.
  intros Hname Hcode response. unfold response, namedKind, aiFailure in *.
  apply orb_false_iff in Hname as [Hname Hrate].
  apply orb_false_iff in Hname as [Hvalidation Hunauthorized].
  errorHandler_cases err; try congruence.
  - rewrite Hunauthorized in *. simpl in *. split; [|done].
    symmetry. by apply Z.eqb_eq.
  - rewrite Hrate in *. simpl in *. split; [|done].
    symmetry. by apply Z.eqb_eq.
  - done.
Qed.

(** A "not found" error made with [createError] is answered with 404. *)
Lemma errorHandler_own_status_witness :
  ErrorResponse.status
    (errorHandler None "2024-01-01T00:00:00.000Z"
       (createError "Track not found" (Some 404) (Some "NOT_FOUND"%string) None)).2 = 404.
Proof.
  apply (errorHandler_own_status None "2024-01-01T00:00:00.000Z"
           (createError "Track not found" (Some 404) (Some "NOT_FOUND"%string) None));
    reflexivity.
Defined.

(** X16.  An error made with [createError] is reported with the message
    it was made with and, in the body, with the status code it was made
    with (400 when none was given).  The HTTP status is that status code,
    except that an AI failure code turns every status code but 401 and 429
    into 503. *)
Theorem createError_reported (nodeEnv : option string) (now message : string)
    (statusCode : option Z) (code trace : option string) :
  statusCode ≠ Some 0 →
  let err := createError message statusCode code trace in
  let response := (errorHandler nodeEnv now err).2 in
  let made := default 400 statusCode in
  ErrorBody.message (ErrorResponse.error response) = message
  ∧ ErrorBody.statusCode (ErrorResponse.error response) = made
  ∧ ErrorResponse.status response
    = if (made =? 401) || (made =? 429) then made
      else if aiFailure err then 503 else made.
Proof.
  intros Hnonzero err response made.
  assert (Hstatus : statusOr500 err = made).
  { unfold statusOr500, err, made. simpl.
    destruct statusCode as [n|]; simpl; [|done].
    destruct (n =? 0) eqn:Hn; [|done]. apply Z.eqb_eq in Hn. congruence. }
  unfold response, aiFailure. errorHandler_cases err; rewrite ?Hstatus in *; simpl in *.
  - discriminate.
  - split; [done|]. split; [done|].
    destruct (made =? 401) eqn:H401; simpl; [by apply Z.eqb_eq in H401 | discriminate].
  - split; [done|]. split; [done|].
    destruct (made =? 401) eqn:H401; [discriminate|].
    destruct (made =? 429) eqn:H429; simpl; [by apply Z.eqb_eq in H429 | discriminate].
  - split; [done|]. split; [done|].
    destruct (made =? 401); [discriminate|]. by destruct (made =? 429).
  - split; [done|]. split; [done|].
    destruct (made =? 401); [discriminate|]. by destruct (made =? 429).
Qed.

(** [createError] with the message alone is answered with 400. *)
Lemma createError_reported_witness :
  ErrorResponse.status
    (errorHandler None "2024-01-01T00:00:00.000Z"
       (createError "Prompt is required" None None None)).2 = 400.
Proof.
  apply (createError_reported None "2024-01-01T00:00:00.000Z" "Prompt is required"
           None None None).
  discriminate.
Defined.

(** X17.  The hints of a response match its status: it is a 429 exactly
    when it carries [retryAfter: 60]; a 401 always carries the code
    UNAUTHORIZED; and the retry and fallback flags come together, only on a
    503 whose code is one of the two AI failure codes. *)
Theorem errorHandler_hints (nodeEnv : option string) (now : string)
    (err : AppError.t) :
  let response := (errorHandler nodeEnv now err).2 in
  let body := ErrorResponse.error response in
  (ErrorResponse.status response = 429 ↔ ErrorBody.retryAfter body = Some 60)
  ∧ (ErrorResponse.status response = 401 → ErrorBody.code body = "UNAUTHORIZED"%string)
  ∧ (ErrorBody.retryable body = Some true ↔ ErrorBody.fallbackAvailable body = Some true)
  ∧ (ErrorBody.retryable body = Some true →
     ErrorResponse.status response = 503
     ∧ (ErrorBody.code body = "AI_MODEL_ERROR"%string
        ∨ ErrorBody.code body = "GENERATION_FAILED"%string)).
Proof.
  intros response body. unfold body, response.
  errorHandler_cases err; simpl.
  - repeat split; done.
  - repeat split; done.
  - repeat split; done.
  - split; [done|]. split; [done|]. split; [done|]. intros _. split; [done|].
    unfold codeIs in *. destruct (AppError.code err) as [c|]; [|done]. simpl.
    apply orb_true_iff in Hcase4 as [Hcode|Hcode];
      apply String.eqb_eq in Hcode; auto.
  - apply orb_false_iff in Hcase2 as [_ H401]. apply orb_false_iff in Hcase3 as [_ H429].
    apply Z.eqb_neq in H401, H429.
    repeat split; done.
Qed.

(** A rate-limit error is answered with 429 and [retryAfter: 60]. *)
Lemma errorHandler_hints_witness :
  ErrorBody.retryAfter
    (ErrorResponse.error (errorHandler None "2024-01-01T00:00:00.000Z" rateLimited).2)
  = Some 60.
Proof.
  apply (errorHandler_hints None "2024-01-01T00:00:00.000Z" rateLimited).
  reflexivity.
Defined.

(** * Properties of the music studio *)

Lemma toggle_filter_elem (instrument other : string) (prev : list string) :
  other ∈ List.filter (λ i, negb (String.eqb i instrument)) prev
  ↔ other ∈ prev ∧ other ≠ instrument.
Proof.
  rewrite list_elem_of_In, filter_In, <- list_elem_of_In, negb_true_iff.
  by rewrite String.eqb_neq.
Qed.

Lemma NoDup_filter_bool {A} (f : A → bool) (l : list A) :
  NoDup l → NoDup (List.filter f l).
Proof.
  induction 1 as [|x l Hx Hl IH]; simpl; [constructor|].
  destruct (f x); [|done]. constructor; [|done].
  intros Hin. apply Hx. by apply list_elem_of_In, filter_In in Hin as [?%list_elem_of_In _].
Qed.

Lemma filter_absent (instrument : string) (prev : list string) :
  instrument ∉ prev →
  List.filter (λ i, negb (String.eqb i instrument)) prev = prev.
Proof.
  induction prev as [|x prev IH]; intros Hnotin; simpl; [done|].
  apply not_elem_of_cons in Hnotin as [Hne Hnotin].
  replace (String.eqb x instrument) with false
    by (symmetry; apply String.eqb_neq; congruence).
  simpl. by rewrite IH.
Qed.

(** X18.  Toggling an instrument flips whether it is selected and leaves
    every other instrument as it was; a selection without repetitions
    stays without repetitions; and toggling an unselected instrument twice
    gives back the very same selection. *)
Theorem toggleInstrument_flips (instrument : string) (prev : list string) :
  let next := toggleInstrument instrument prev in
  (instrument ∈ next ↔ instrument ∉ prev)
  ∧ (∀ other, other ≠ instrument → other ∈ next ↔ other ∈ prev)
  ∧ (NoDup prev → NoDup next)
  ∧ (instrument ∉ prev → toggleInstrument instrument next = prev).
Proof.
  intros next. unfold next, toggleInstrument.
  destruct (bool_decide (instrument ∈ prev)) eqn:Hsel.
  - apply bool_decide_eq_true in Hsel. split; [|split; [|split]].
    + rewrite toggle_filter_elem. split; [by intros [_ ?] | done].
    + intros other Hne. rewrite toggle_filter_elem. tauto.
    + apply NoDup_filter_bool.
    + done.
  - apply bool_decide_eq_false in Hsel. split; [|split; [|split]].
    + rewrite elem_of_app, list_elem_of_singleton. tauto.
    + intros other Hne. rewrite elem_of_app, list_elem_of_singleton. tauto.
    + intros Hnodup. apply NoDup_app. split; [done|]. split.
      * intros x Hx Hx'. apply list_elem_of_singleton in Hx'. by subst x.
      * apply NoDup_singleton.
    + intros _. rewrite bool_decide_eq_true_2
        by (rewrite elem_of_app, list_elem_of_singleton; by right).
      rewrite List.filter_app. simpl. rewrite String.eqb_refl. simpl.
      rewrite app_nil_r. by apply filter_absent.
Qed.

(** Piano and drums selected: a toggle of bass and a second toggle of
    bass give piano and drums again. *)
Lemma toggleInstrument_flips_witness :
  toggleInstrument "bass" (toggleInstrument "bass" ["piano"; "drums"])
  = ["piano"; "drums"]%string.
Proof.
  apply (toggleInstrument_flips "bass" ["piano"; "drums"]%string).
  intros Hin. repeat (apply elem_of_cons in Hin as [Heq|Hin]; [discriminate Heq|]).
  by apply elem_of_nil in Hin.
Defined.

(** X19.  Whatever the stored history holds, and however long it is,
    after [recordInteraction] it holds at most 500 interactions: the most
    recent 500 of the old history followed by the new interaction, which is
    its last entry. *)
Theorem recordInteraction_bounded (interaction : UserInteraction.t)
    (interactions : list UserInteraction.t) :
  let next := recordInteraction interaction interactions in
  next = mostRecent 500 (interactions ++ [interaction])
  ∧ (length next ≤ 500)%nat
  ∧ last next = Some interaction.
Proof.
  intros next.
  assert (Hnext : next = mostRecent 500 (interactions ++ [interaction])).
  { unfold next, recordInteraction, MAX_HISTORY.
    destruct (500 <? length (interactions ++ [interaction]))%nat eqn:Hover.
    - apply slice_from_end_mostRecent.
    - apply Nat.ltb_ge in Hover. by rewrite mostRecent_all. }
  split; [done|]. rewrite Hnext. split.
  - rewrite mostRecent_length. lia.
  - rewrite mostRecent_last by lia. apply last_snoc.
Qed.
